(** * Verification of the [assignments] repository

    Shallow embedding of
    - [url-shortener/app/models.py]  (the in-memory [URLStore]),
    - [url-shortener/app/utils.py]   ([generate_short_code],
      [sanitize_url], [is_valid_url]),
    - [url-shortener/app/main.py]    (the handlers of the shortener),
    - [messy-migration/app_refactored.py] (validators, [UserService] and
      the HTTP handlers built on it),
    followed by the properties proved about them.

    Conventions.  Python [int] is [Z]; [float] is the primitive [float];
    a [dict] is a [gmap].  In the shortener a [str] is a [string], one
    [ascii] per character: the strings of code points below 256.  In the
    user-management API a [str] is the list of its code points, a
    [list N]: there the outcome of a call depends on characters beyond
    that range (a lone surrogate has no UTF-8 encoding), and on the size
    of the numbers and strings that SQLite is given.  Python objects that
    are shared by reference (the [URLMapping] instances) live in an
    explicit object heap and are named by references, so that aliasing is
    visible in the model. *)

From Stdlib Require Import ZArith String Ascii List Floats.
From stdpp Require Import gmap strings list fin_maps.

Open Scope Z_scope.

(* ===================================================================== *)
(** * Part I: the programs                                                *)
(* ===================================================================== *)

(** ** url-shortener/app/models.py *)

Module Models.

(** [@dataclass URLMapping]; [clicks] defaults to [0]. *)
Record URLMapping := mkURLMapping {
  original_url : string;
  short_code : string;
  created_at : float;
  clicks : Z
}.

(** The identity of a [URLMapping] instance: its index in [objects]. *)
Abbreviation ref := nat.

(** The state a [URLStore] works on.  [objects] holds every [URLMapping]
    instance allocated so far (instances are never freed while a
    reference to them may exist); [mappings] is the dict [self._mappings],
    whose values are references to instances.  The lock serialises the
    four methods, which are modelled as atomic state transformers. *)
Record URLStore := mkURLStore {
  objects : list URLMapping;
  mappings : gmap string ref
}.

(** [URLStore.__init__] *)
Definition init : URLStore :=
  {| objects := []; mappings := ∅ |}.

(** What a holder of reference [r] reads in state [st]. *)
Definition deref (st : URLStore) (r : ref) : option URLMapping :=
  objects st !! r.

(** [add_mapping]: builds a new instance stamped with [now], the value
    [time.time()] returns at the call, binds [short_code] to it and
    returns (a reference to) it. *)
Definition add_mapping (now : float) (short_code original_url : string)
    (st : URLStore) : ref * URLStore :=
  let mapping :=
    {| original_url := original_url; short_code := short_code;
       created_at := now; clicks := 0 |} in
  let r := length (objects st) in
  (r, {| objects := objects st ++ [mapping];
         mappings := <[short_code := r]> (mappings st) |}).

(** [get_mapping]: [dict.get], [None] when the key is absent. *)
Definition get_mapping (short_code : string) (st : URLStore) : option ref :=
  mappings st !! short_code.

(** [mapping.clicks += 1] on one instance. *)
Definition click (m : URLMapping) : URLMapping :=
  {| original_url := original_url m; short_code := short_code m;
     created_at := created_at m; clicks := clicks m + 1 |}.

(** [increment_clicks].  [if mapping:] tests the result of [dict.get]
    against [None]: a dataclass instance defines neither [__bool__] nor
    [__len__] and is always true. *)
Definition increment_clicks (short_code : string) (st : URLStore)
    : bool * URLStore :=
  match mappings st !! short_code with
  | Some r =>
      (true, {| objects := alter click r (objects st);
                mappings := mappings st |})
  | None => (false, st)
  end.

(** [get_all_mappings]: [dict.copy()], a new dict holding the same
    references.  The returned dict is a value of its own: later
    insertions into [self._mappings] do not reach it. *)
Definition get_all_mappings (st : URLStore) : gmap string ref :=
  mappings st.

(** The record a dict [d] of references shows under [code] when read in
    state [st]. *)
Definition shows (d : gmap string ref) (st : URLStore) (code : string)
    : option URLMapping :=
  d !! code ≫= deref st.

(** The record currently stored under [code]. *)
Definition stored (st : URLStore) (code : string) : option URLMapping :=
  shows (mappings st) st code.

(** Method calls on a store and their effect on the state. *)
Inductive call :=
| AddMapping (now : float) (short_code original_url : string)
| GetMapping (short_code : string)
| IncrementClicks (short_code : string)
| GetAllMappings.

Definition exec (st : URLStore) (c : call) : URLStore :=
  match c with
  | AddMapping now code url => (add_mapping now code url st).2
  | GetMapping _ => st
  | IncrementClicks code => (increment_clicks code st).2
  | GetAllMappings => st
  end.

Definition run (cs : list call) (st : URLStore) : URLStore :=
  foldl exec st cs.

(** States of a store created by [URLStore()] and used through its
    methods only. *)
Definition reachable (st : URLStore) : Prop :=
  ∃ cs, st = run cs init.

(** The invariant of a store: every key is bound to a live instance that
    carries the key as its [short_code] and a counter that is not
    negative. *)
Definition wf (st : URLStore) : Prop :=
  ∀ code r, mappings st !! code = Some r →
    ∃ m, objects st !! r = Some m ∧ short_code m = code ∧ 0 ≤ clicks m.

(** [m'] is [m] up to the counter. *)
Definition same_identity (m m' : URLMapping) : Prop :=
  original_url m' = original_url m ∧ short_code m' = short_code m
  ∧ created_at m' = created_at m.

Definition is_add (code : string) (c : call) : bool :=
  match c with
  | AddMapping _ code' _ => bool_decide (code' = code)
  | _ => false
  end.

Definition is_increment (code : string) (c : call) : bool :=
  match c with
  | IncrementClicks code' => bool_decide (code' = code)
  | _ => false
  end.

(** The record of [code] as the calls that name [code] alone determine
    it: [add_mapping] on [code] replaces it by a new record,
    [increment_clicks] on [code] adds one to its counter, and no other
    call touches it. *)
Definition replay_call (code : string) (record : option URLMapping)
    (c : call) : option URLMapping :=
  match c with
  | AddMapping now code' url =>
      if bool_decide (code' = code) then Some (mkURLMapping url code now 0)
      else record
  | IncrementClicks code' =>
      if bool_decide (code' = code) then click <$> record else record
  | GetMapping _ | GetAllMappings => record
  end.

Definition replay (code : string) (cs : list call) : option URLMapping :=
  foldl (replay_call code) None cs.

End Models.


(** ** The regular expressions of the [re] module, as the validators of
    both applications use them *)

Module Re.

Section Engine.
(** The characters of the subject. *)
Context {C : Type}.

(** Patterns over character classes. *)
Inductive regex :=
| Nothing
| Eps
| Class (p : C → bool)
| Seq (r1 r2 : regex)
| Alt (r1 r2 : regex)
| Star (r : regex).

(** [r+] and [r{2,}] *)
Definition Plus (r : regex) : regex := Seq r (Star r).
Definition AtLeast2 (r : regex) : regex := Seq r (Seq r (Star r)).

Fixpoint nullable (r : regex) : bool :=
  match r with
  | Nothing => false
  | Eps => true
  | Class _ => false
  | Seq r1 r2 => nullable r1 && nullable r2
  | Alt r1 r2 => nullable r1 || nullable r2
  | Star _ => true
  end.

(** The derivative of [r] by the character [c]. *)
Fixpoint deriv (c : C) (r : regex) : regex :=
  match r with
  | Nothing => Nothing
  | Eps => Nothing
  | Class p => if p c then Eps else Nothing
  | Seq r1 r2 =>
      if nullable r1 then Alt (Seq (deriv c r1) r2) (deriv c r2)
      else Seq (deriv c r1) r2
  | Alt r1 r2 => Alt (deriv c r1) (deriv c r2)
  | Star r1 => Seq (deriv c r1) (Star r1)
  end.

(** Does the whole of [s] belong to the language of [r]? *)
Fixpoint fullmatch (r : regex) (s : list C) : bool :=
  match s with
  | [] => nullable r
  | c :: s' => fullmatch (deriv c r) s'
  end.

(** The pattern [$] without [re.MULTILINE]: the end of the string, or the
    position just before a newline that ends the string. *)
Definition dollar (is_newline : C → bool) : regex :=
  Alt Eps (Class is_newline).

(** [re.match(r $, s)] for a pattern [r] that ends in [$]: the match is
    anchored at the start, and [$] anchors its end. *)
Definition match_anchored (is_newline : C → bool) (r : regex) (s : list C)
    : bool :=
  fullmatch (Seq r (dollar is_newline)) s.

(** [r?], [r{0,n}], [r{n}] and [r{m,n}] *)
Definition Opt (r : regex) : regex := Alt Eps r.

Fixpoint Upto (n : nat) (r : regex) : regex :=
  match n with
  | O => Eps
  | S n' => Opt (Seq r (Upto n' r))
  end.

Fixpoint Times (n : nat) (r : regex) : regex :=
  match n with
  | O => Eps
  | S n' => Seq r (Times n' r)
  end.

Definition Between (m n : nat) (r : regex) : regex :=
  Seq (Times m r) (Upto (n - m) r).

(** The language of a pattern: the strings that some way of running the
    pattern consumes entirely. *)
Inductive matches : regex → list C → Prop :=
| matches_eps : matches Eps []
| matches_class p c : p c = true → matches (Class p) [c]
| matches_seq r1 r2 s1 s2 :
    matches r1 s1 → matches r2 s2 → matches (Seq r1 r2) (s1 ++ s2)
| matches_alt_l r1 r2 s : matches r1 s → matches (Alt r1 r2) s
| matches_alt_r r1 r2 s : matches r2 s → matches (Alt r1 r2) s
| matches_star_nil r : matches (Star r) []
| matches_star_cons r s1 s2 :
    matches r s1 → matches (Star r) s2 → matches (Star r) (s1 ++ s2).

End Engine.

Arguments regex : clear implicits.

End Re.

(** ** The strings of the shortener: code points below 256 *)

Module Latin1.

(** The characters [str.strip()] removes: those for which [str.isspace]
    holds (among the code points below 256). *)
Definition isspace (c : ascii) : bool :=
  let n := nat_of_ascii c in
  ((9 <=? n) && (n <=? 13) || (28 <=? n) && (n <=? 32)
   || (n =? 133) || (n =? 160))%nat.

Fixpoint lstrip (s : string) : string :=
  match s with
  | EmptyString => EmptyString
  | String c s' => if isspace c then lstrip s' else s
  end.

Fixpoint rstrip (s : string) : string :=
  match s with
  | EmptyString => EmptyString
  | String c s' =>
      match rstrip s' with
      | EmptyString => if isspace c then EmptyString else String c EmptyString
      | t => String c t
      end
  end.

Definition strip (s : string) : string := rstrip (lstrip s).


(** The classes of the patterns. *)

Definition is_newline (c : ascii) : bool := (nat_of_ascii c =? 10)%nat.

Definition in_range (lo hi : nat) (c : ascii) : bool :=
  let n := nat_of_ascii c in ((lo <=? n) && (n <=? hi))%nat.
Definition one_of (cs : string) (c : ascii) : bool :=
  bool_decide (c ∈ list_ascii_of_string cs).

(** [[a-zA-Z]] and [[a-zA-Z0-9]] *)
Definition letter (c : ascii) : bool := in_range 97 122 c || in_range 65 90 c.
Definition letter_digit (c : ascii) : bool := letter c || in_range 48 57 c.

(** Under [re.IGNORECASE] a literal character matches in either case.
    Among the code points below 256 only the ASCII letters have a
    counterpart of the other case that a pattern of ASCII letters can
    meet. *)
Definition lower (c : ascii) : ascii :=
  if in_range 65 90 c then ascii_of_nat (nat_of_ascii c + 32) else c.
Definition eq_ci (a c : ascii) : bool := Ascii.eqb (lower a) (lower c).

Fixpoint Lit_ci (s : string) : Re.regex ascii :=
  match s with
  | EmptyString => Re.Eps
  | String a s' => Re.Seq (Re.Class (eq_ci a)) (Lit_ci s')
  end.

(** Two strings that are equal up to the case of their letters. *)
Fixpoint eq_ci_string (a s : string) : bool :=
  match a, s with
  | EmptyString, EmptyString => true
  | String x a', String c s' => eq_ci x c && eq_ci_string a' s'
  | _, _ => false
  end.

(** [\d] and [\s] on [str]: the decimal digits and the characters of
    [str.isspace] (among the code points below 256); [\S] is the
    complement of [\s]. *)
Definition digit (c : ascii) : bool := in_range 48 57 c.
Definition space (c : ascii) : bool :=
  let n := nat_of_ascii c in
  ((9 <=? n) && (n <=? 13) || (28 <=? n) && (n <=? 32)
   || (n =? 133) || (n =? 160))%nat.
Definition nonspace (c : ascii) : bool := negb (space c).

(** The 256 characters, and the test that every character class of a
    pattern lies within the class [q]. *)
Definition all_ascii : list ascii := ascii_of_nat <$> seq 0 256.

Definition class_within (q p : ascii → bool) : bool :=
  forallb (λ c, implb (p c) (q c)) all_ascii.

Fixpoint classes_within (q : ascii → bool) (r : Re.regex ascii) : bool :=
  match r with
  | Re.Nothing | Re.Eps => true
  | Re.Class p => class_within q p
  | Re.Seq r1 r2 | Re.Alt r1 r2 =>
      classes_within q r1 && classes_within q r2
  | Re.Star r1 => classes_within q r1
  end.

End Latin1.

(** ** url-shortener/app/utils.py *)

Module Utils.

(** [string.ascii_letters] and [string.digits]. *)
Definition ascii_lowercase : string := "abcdefghijklmnopqrstuvwxyz".
Definition ascii_uppercase : string := "ABCDEFGHIJKLMNOPQRSTUVWXYZ".
Definition ascii_letters : string := ascii_lowercase +:+ ascii_uppercase.
Definition digits : string := "0123456789".

(** The alphabet of [generate_short_code]:
    [string.ascii_letters + string.digits]. *)
Definition characters : string := ascii_letters +:+ digits.

(** The generator behind the [random] module.  Its algorithm is the
    interpreter's; what [random.choice] relies on is [_randbelow n],
    which for a positive [n] yields an index below [n] and advances the
    generator. *)
Class RandomSource (G : Type) := {
  randbelow : nat → G → nat * G;
  randbelow_lt : ∀ n g, (0 < n)%nat → ((randbelow n g).1 < n)%nat
}.

Section Random.
Context {G : Type} `{RandomSource G}.

(** [random.choice(seq)]: [seq[self._randbelow(len(seq))]]; [None]
    stands for the [IndexError] on an empty sequence. *)
Definition choice (seq : string) (g : G) : option (ascii * G) :=
  match String.length seq with
  | O => None
  | n => let '(i, g') := randbelow n g in
         c ← String.get i seq; Some (c, g')
  end.

(** [''.join(random.choice(characters) for _ in range(n))] *)
Fixpoint join_choices (characters : string) (n : nat) (g : G)
    : option (string * G) :=
  match n with
  | O => Some (EmptyString, g)
  | S n' =>
      '(c, g1) ← choice characters g;
      '(s, g2) ← join_choices characters n' g1;
      Some (String c s, g2)
  end.

(** [generate_short_code(length)]; [range(length)] is empty for a
    negative [length]. *)
Definition generate_short_code (length : Z) (g : G) : option (string * G) :=
  join_choices characters (Z.to_nat length) g.

(** [generate_short_code()], with the default [length=6]. *)
Definition generate_short_code_default (g : G) : option (string * G) :=
  generate_short_code 6 g.

End Random.

(** [sanitize_url]: [str.startswith] with a tuple of prefixes compares
    the characters as they are, case included. *)
Definition sanitize_url (url : string) : string :=
  if negb (String.prefix "http://" url || String.prefix "https://" url)
  then "https://" +:+ url
  else url.

(** The pattern of [is_valid_url], compiled with [re.IGNORECASE]:
    [[A-Z0-9](?:[A-Z0-9-]{0,61}[A-Z0-9])?] is one label of a domain. *)
Definition dot : Re.regex ascii := Re.Class (Latin1.one_of ".").

Definition label : Re.regex ascii :=
  Re.Seq (Re.Class Latin1.letter_digit)
    (Re.Opt (Re.Seq
       (Re.Upto 61 (Re.Class (λ c, Latin1.letter_digit c || Latin1.one_of "-" c)))
       (Re.Class Latin1.letter_digit))).

(** [(?:label\.)+[A-Z]{2,6}\.?] *)
Definition domain : Re.regex ascii :=
  Re.Seq (Re.Plus (Re.Seq label dot))
    (Re.Seq (Re.Between 2 6 (Re.Class Latin1.letter)) (Re.Opt dot)).

(** [\d{1,3}\.\d{1,3}\.\d{1,3}\.\d{1,3}] *)
Definition octet : Re.regex ascii := Re.Between 1 3 (Re.Class Latin1.digit).
Definition ipv4 : Re.regex ascii :=
  Re.Seq octet (Re.Seq dot (Re.Seq octet (Re.Seq dot
    (Re.Seq octet (Re.Seq dot octet))))).

(** [localhost], the second of the three forms of a host *)
Definition host : Re.regex ascii :=
  Re.Alt domain (Re.Alt (Latin1.Lit_ci "localhost") ipv4).

(** [(?::\d+)?] *)
Definition port : Re.regex ascii :=
  Re.Opt (Re.Seq (Re.Class (Latin1.one_of ":")) (Re.Plus (Re.Class Latin1.digit))).

(** [(?:/?|[/?]\S+)?] *)
Definition path : Re.regex ascii :=
  Re.Opt (Re.Alt (Re.Opt (Re.Class (Latin1.one_of "/")))
                 (Re.Seq (Re.Class (Latin1.one_of "/?"))
                         (Re.Plus (Re.Class Latin1.nonspace)))).

(** [^https?://] host port path [$] *)
Definition url_pattern : Re.regex ascii :=
  Re.Seq (Latin1.Lit_ci "http")
    (Re.Seq (Re.Opt (Re.Class (Latin1.eq_ci "s")))
       (Re.Seq (Latin1.Lit_ci "://") (Re.Seq host (Re.Seq port path)))).

(** [is_valid_url]; [not url] holds for the empty string, and the
    argument is a [str]. *)
Definition is_valid_url (url : string) : bool :=
  if String.eqb url "" then false
  else Re.match_anchored Latin1.is_newline url_pattern
         (list_ascii_of_string url).

(** The character class [[A-Za-z0-9]]. *)
Definition alnum (c : ascii) : bool :=
  let n := nat_of_ascii c in
  ((65 <=? n) && (n <=? 90) || (97 <=? n) && (n <=? 122)
   || (48 <=? n) && (n <=? 57))%nat.

(** A linear congruential generator, used to run the code on examples. *)
Definition lcg_next (g : Z) : Z := (g * 1103515245 + 12345) mod 2147483648.

#[export] Program Instance lcg : RandomSource Z := {|
  randbelow n g := (Z.to_nat (g mod Z.of_nat n), lcg_next g)
|}.
Next Obligation.
  intros n g Hn; simpl.
  pose proof (Z.mod_pos_bound g (Z.of_nat n)); lia.
Qed.

End Utils.

(** ** messy-migration/app_refactored.py *)

(** *** Exceptions *)

Module Py.

(** The exceptions that the calls of the user-management API raise. *)
Inductive exn :=
| KeyError (key : list N)
| UnicodeEncodeError
| OverflowError
| DataError
| OperationalError.

(** A call returns a value or raises. *)
Inductive result (A : Type) :=
| Return (a : A)
| Raise (e : exn).
Arguments Return {A} a.
Arguments Raise {A} e.

#[export] Instance result_ret : MRet result := λ A a, Return a.
#[export] Instance result_bind : MBind result := λ A B f x,
  match x with
  | Return a => f a
  | Raise e => Raise e
  end.

(** [try: ... except Exception: handler] *)
Definition except_exception {A : Type} (body : result A) (handler : A) : A :=
  match body with
  | Return a => a
  | Raise _ => handler
  end.

End Py.

(** *** The strings of the user-management API: all code points *)

Module Unicode.
Import Py.

(** A string literal of the source. *)
Definition u (s : string) : list N := N_of_ascii <$> list_ascii_of_string s.

(** The code points U+D800 to U+DFFF.  [json.loads] delivers a lone
    surrogate where the body escapes one. *)
Definition surrogate (c : N) : bool := ((55296 <=? c) && (c <=? 57343))%N.

Definition encodable (s : list N) : bool :=
  forallb (λ c, negb (surrogate c)) s.

(** The bytes of a code point in UTF-8. *)
Definition utf8 (c : N) : list N :=
  (if c <? 128 then [c]
   else if c <? 2048 then [192 + c / 64; 128 + c mod 64]
   else if c <? 65536 then
     [224 + c / 4096; 128 + (c / 64) mod 64; 128 + c mod 64]
   else [240 + c / 262144; 128 + (c / 4096) mod 64;
         128 + (c / 64) mod 64; 128 + c mod 64])%N.

(** [s.encode()]: the codec is UTF-8 and the error handler is [strict],
    which refuses a surrogate. *)
Definition encode (s : list N) : result (list N) :=
  if encodable s then Return (flat_map utf8 s) else Raise UnicodeEncodeError.

(** The characters [str.strip()] removes: those for which [str.isspace]
    holds. *)
Definition isspace (c : N) : bool :=
  ((9 <=? c) && (c <=? 13) || (28 <=? c) && (c <=? 32)
   || (c =? 133) || (c =? 160) || (c =? 5760)
   || (8192 <=? c) && (c <=? 8202) || (c =? 8232) || (c =? 8233)
   || (c =? 8239) || (c =? 8287) || (c =? 12288))%N.

Fixpoint lstrip (s : list N) : list N :=
  match s with
  | [] => []
  | c :: s' => if isspace c then lstrip s' else s
  end.

Fixpoint rstrip (s : list N) : list N :=
  match s with
  | [] => []
  | c :: s' =>
      match rstrip s' with
      | [] => if isspace c then [] else [c]
      | t => c :: t
      end
  end.

Definition strip (s : list N) : list N := rstrip (lstrip s).

(** The classes of the patterns. *)
Definition is_newline (c : N) : bool := (c =? 10)%N.
Definition in_range (lo hi c : N) : bool := ((lo <=? c) && (c <=? hi))%N.
Definition one_of (cs : string) (c : N) : bool := bool_decide (c ∈ u cs).

(** [[a-zA-Z]] and [[a-zA-Z0-9]] *)
Definition letter (c : N) : bool := in_range 97 122 c || in_range 65 90 c.
Definition letter_digit (c : N) : bool := letter c || in_range 48 57 c.

End Unicode.

(** *** What the [sqlite3] module does with the parameters of a statement *)

Module Sqlite.
Import Py Unicode.

(** [SQLITE_MAX_LENGTH] and [SQLITE_MAX_LIKE_PATTERN_LENGTH], in bytes,
    and the largest [int] of C. *)
Definition max_length : Z := 1000000000.
Definition max_like_pattern_length : Z := 50000.
Definition int_max : Z := 2147483647.

(** An [int] is bound as a signed integer of 64 bits. *)
Definition bind_int (i : Z) : result Z :=
  if (-9223372036854775808 <=? i) && (i <=? 9223372036854775807)
  then Return i
  else Raise OverflowError.

(** A [str] is bound as its UTF-8 bytes. *)
Definition bind_text (s : list N) : result (list N) :=
  bytes ← encode s;
  if int_max <? Z.of_nat (length bytes) then Raise OverflowError
  else if max_length <? Z.of_nat (length bytes) then Raise DataError
  else Return s.

(** The strings that can be bound. *)
Definition binds (s : list N) : bool :=
  encodable s && (Z.of_nat (length (flat_map utf8 s)) <=? max_length).

(** **** The operator [LIKE] *)

(** [LIKE] folds the case of the ASCII letters only. *)
Definition fold_case (c : N) : N :=
  if in_range 65 90 c then (c + 32)%N else c.

(** [LIKE] reads its operands as C strings: up to the first NUL. *)
Fixpoint until_nul (s : list N) : list N :=
  match s with
  | [] => []
  | c :: s' => if (c =? 0)%N then [] else c :: until_nul s'
  end.

(** [%] stands for any run of characters, [_] for any one character, any
    other character for itself up to case. *)
Fixpoint like_chars (pattern : list N) : list N → bool :=
  match pattern with
  | [] => λ text, bool_decide (text = [])
  | p :: pattern' =>
      if (p =? 37)%N then
        fix any (text : list N) : bool :=
          like_chars pattern' text
          || match text with
             | [] => false
             | _ :: text' => any text'
             end
      else if (p =? 95)%N then
        λ text, match text with
                | [] => false
                | _ :: text' => like_chars pattern' text'
                end
      else
        λ text, match text with
                | [] => false
                | c :: text' =>
                    (fold_case p =? fold_case c)%N && like_chars pattern' text'
                end
  end.

(** [text LIKE pattern], as it is evaluated for one row: a pattern of
    more than [SQLITE_MAX_LIKE_PATTERN_LENGTH] bytes is refused. *)
Definition like (pattern text : list N) : result bool :=
  if max_like_pattern_length <? Z.of_nat (length (flat_map utf8 pattern))
  then Raise OperationalError
  else Return (like_chars (until_nul pattern) (until_nul text)).

(** [SELECT ... WHERE condition]: the condition is evaluated row by
    row, and the statement fails where the condition does. *)
Fixpoint select {A : Type} (condition : A → result bool) (rows : list A)
    : result (list A) :=
  match rows with
  | [] => Return []
  | r :: rows' =>
      b ← condition r;
      selected ← select condition rows';
      Return (if (b : bool) then r :: selected else selected)
  end.

End Sqlite.

(** *** The table [users] *)

Module Users.

(** A row of [users(id, name, email, password)]. *)
Record row := mk {
  id : Z;
  name : list N;
  email : list N;
  password : list N
}.

End Users.

Module AppRefactored.
Import Py Unicode.

(** What the code takes from outside the repository's sources: the
    SHA-256 digest of [hashlib], as the string of its hexadecimal digits;
    the key that the backing store assigns to the next row inserted into
    [users]; and whether the table takes a row (the table's schema is
    created outside the source files; the specification says of [id]:
    assigned by the backing store on creation; SQLite refuses a record of
    more than [SQLITE_MAX_LENGTH] bytes). *)
Class Backend := {
  sha256_hexdigest : list N → list N;
  new_id : list Users.row → Z;
  stores : Users.row → bool
}.

(** **** class UserValidator *)

Module UserValidator.

(** [^[a-zA-Z0-9._%+-]+@[a-zA-Z0-9.-]+\.[a-zA-Z]{2,}$] *)
Definition email_pattern : Re.regex N :=
  Re.Seq (Re.Plus (Re.Class (λ c, letter_digit c || one_of "._%+-" c)))
  (Re.Seq (Re.Class (one_of "@"))
  (Re.Seq (Re.Plus (Re.Class (λ c, letter_digit c || one_of ".-" c)))
  (Re.Seq (Re.Class (one_of "."))
          (Re.AtLeast2 (Re.Class letter))))).

Definition validate_email (email : list N) : bool :=
  Re.match_anchored is_newline email_pattern email.

Definition validate_password (password : list N) : bool :=
  6 <=? Z.of_nat (length password).

Definition validate_name (name : list N) : bool :=
  2 <=? Z.of_nat (length (strip name)).

(** The loop over [required_fields]: the first field that is not a key
    of [data] or whose value is false (for a string: empty). *)
Fixpoint first_missing (data : gmap (list N) (list N))
    (required_fields : list (list N)) : option (list N) :=
  match required_fields with
  | [] => None
  | field :: rest =>
      match data !! field with
      | None => Some field
      | Some v =>
          if bool_decide (v = []) then Some field
          else first_missing data rest
      end
  end.

(** [validate_user_data(data, required_fields)], for a [data] whose
    values are strings (what the three validators take).  [data['email']]
    is a subscript: it raises [KeyError] when the key is absent. *)
Definition validate_user_data (data : gmap (list N) (list N))
    (required_fields : list (list N)) : result (bool * list N) :=
  match first_missing data required_fields with
  | Some field => Return (false, u "Missing required field: " ++ field)
  | None =>
      match data !! u "email" with
      | None => Raise (KeyError (u "email"))
      | Some email =>
          if negb (validate_email email) then
            Return (false, u "Invalid email format")
          else if match data !! u "password" with
                  | Some password => negb (validate_password password)
                  | None => false
                  end then
            Return (false, u "Password must be at least 6 characters long")
          else if match data !! u "name" with
                  | Some name => negb (validate_name name)
                  | None => false
                  end then
            Return (false, u "Name must be at least 2 characters long")
          else Return (true, u "")
      end
  end.

End UserValidator.

(** The payload validator as the specification words it (section 4.2):
    the scan for a missing or empty required field comes first; then the
    email, the password and the name validator are applied, in this
    order, to whichever of the three fields are present; the first
    failure is reported. *)
Definition fails (validator : list N → bool) (field : option (list N))
    : bool :=
  match field with
  | Some v => negb (validator v)
  | None => false
  end.

Definition validate_user_payload_spec (fields : gmap (list N) (list N))
    (required : list (list N)) : bool * list N :=
  match UserValidator.first_missing fields required with
  | Some field => (false, u "Missing required field: " ++ field)
  | None =>
      if fails UserValidator.validate_email (fields !! u "email") then
        (false, u "Invalid email format")
      else if fails UserValidator.validate_password (fields !! u "password")
      then (false, u "Password must be at least 6 characters long")
      else if fails UserValidator.validate_name (fields !! u "name") then
        (false, u "Name must be at least 2 characters long")
      else (true, u "")
  end.

(** **** class UserService

    The database is the content of [users], in the order of insertion.
    [execute_query] returns the selected tuples and [execute_update]
    the number of rows the statement affected; every call opens a
    connection of its own, so a method is a function of the table.  A
    statement that raises leaves the table as it was. *)

Module UserService.

Section Service.
Context `{Backend}.

(** [hashlib.sha256(password.encode()).hexdigest()] *)
Definition hash_password (password : list N) : result (list N) :=
  bytes ← encode password;
  Return (sha256_hexdigest bytes).

(** The columns [id, name, email] of a row. *)
Definition public (r : Users.row) : Z * list N * list N :=
  (Users.id r, Users.name r, Users.email r).

(** [SELECT id, name, email FROM users] *)
Definition get_all_users (db : list Users.row) : list (Z * list N * list N) :=
  public <$> db.

(** [SELECT id, name, email FROM users WHERE id = ?]; [result[0]] or
    [None]. *)
Definition get_user_by_id (user_id : Z) (db : list Users.row)
    : result (option (Z * list N * list N)) :=
  user_id ← Sqlite.bind_int user_id;
  Return (head (public <$> filter (λ r, Users.id r = user_id) db)).

(** [INSERT INTO users (name, email, password)], then
    [SELECT id FROM users WHERE email = ?]; [result[0][0]] or [None].
    The digest is made of hexadecimal digits, which are bound as they
    are. *)
Definition create_user (name email password : list N) (db : list Users.row)
    : result (option Z * list Users.row) :=
  password_hash ← hash_password password;
  name ← Sqlite.bind_text name;
  email ← Sqlite.bind_text email;
  let inserted := Users.mk (new_id db) name email password_hash in
  if negb (stores inserted) then Raise DataError
  else
    let db' := db ++ [inserted] in
    email ← Sqlite.bind_text email;
    Return (head (Users.id <$> filter (λ r, Users.email r = email) db'), db').

(** [UPDATE users SET name = ?, email = ? WHERE id = ?] *)
Definition update_user (user_id : Z) (name email : list N)
    (db : list Users.row) : result (bool * list Users.row) :=
  name ← Sqlite.bind_text name;
  email ← Sqlite.bind_text email;
  user_id ← Sqlite.bind_int user_id;
  let updated r := Users.mk (Users.id r) name email (Users.password r) in
  if negb (forallb stores
             (updated <$> filter (λ r, Users.id r = user_id) db))
  then Raise DataError
  else
    let affected_rows := length (filter (λ r, Users.id r = user_id) db) in
    Return (0 <? Z.of_nat affected_rows,
            (λ r, if decide (Users.id r = user_id) then updated r else r)
              <$> db).

(** [DELETE FROM users WHERE id = ?] *)
Definition delete_user (user_id : Z) (db : list Users.row)
    : result (bool * list Users.row) :=
  user_id ← Sqlite.bind_int user_id;
  let affected_rows := length (filter (λ r, Users.id r = user_id) db) in
  Return (0 <? Z.of_nat affected_rows,
          filter (λ r, Users.id r ≠ user_id) db).

(** [SELECT id, name, email FROM users WHERE name LIKE ?] with the
    parameter [f'%{name}%']. *)
Definition search_users (name : list N) (db : list Users.row)
    : result (list (Z * list N * list N)) :=
  pattern ← Sqlite.bind_text (u "%" ++ name ++ u "%");
  rows ← Sqlite.select (λ r, Sqlite.like pattern (Users.name r)) db;
  Return (public <$> (rows : list Users.row)).

(** [SELECT id FROM users WHERE email = ? AND password = ?] *)
Definition authenticate_user (email password : list N) (db : list Users.row)
    : result (option Z) :=
  password_hash ← hash_password password;
  email ← Sqlite.bind_text email;
  Return (head (Users.id <$> filter (λ r, Users.email r = email
                                          ∧ Users.password r = password_hash)
                               db)).

End Service.

End UserService.

(** **** The HTTP handlers

    A response is the JSON document and the status code.  The
    [except Exception] branch of a handler answers whatever the calls
    above raise. *)

#[warnings="-register-all"]
Inductive json :=
| JNull
| JInt (z : Z)
| JStr (s : list N)
| JBool (b : bool)
| JList (l : list json)
| JDict (fields : list (list N * json)).

Record response := mkResponse { body : json; status : Z }.

Definition jsonify (j : json) : response := mkResponse j 200.

Definition create_error_response (message : list N) (status_code : Z)
    : response :=
  mkResponse (JDict [(u "error", JStr message)]) status_code.

Definition create_success_response (data : json) (status_code : Z)
    : response :=
  mkResponse (JDict [(u "success", JBool true); (u "data", data)])
    status_code.

(** [{"id": user[0], "name": user[1], "email": user[2]}] *)
Definition user_dict (user : Z * list N * list N) : json :=
  JDict [(u "id", JInt user.1.1); (u "name", JStr user.1.2);
         (u "email", JStr user.2)].

(** An [Optional[int]] as a document. *)
Definition optional_int (i : option Z) : json := from_option JInt JNull i.

Section Handlers.
Context `{Backend}.

(** [GET /users] *)
Definition get_all_users (db : list Users.row) : response :=
  let users := UserService.get_all_users db in
  jsonify (JDict [(u "users", JList (user_dict <$> users))]).

(** [GET /user/<int:user_id>]; a tuple of three is true. *)
Definition get_user (user_id : Z) (db : list Users.row) : response :=
  except_exception
    (user ← UserService.get_user_by_id user_id db;
     match user with
     | Some user => Return (jsonify (user_dict user))
     | None => Return (create_error_response (u "User not found") 404)
     end)
    (create_error_response (u "Internal server error") 500).

(** [DELETE /user/<int:user_id>] *)
Definition delete_user (user_id : Z) (db : list Users.row)
    : response * list Users.row :=
  except_exception
    (existing_user ← UserService.get_user_by_id user_id db;
     match existing_user with
     | None => Return (create_error_response (u "User not found") 404, db)
     | Some _ =>
         '(success, db') ← UserService.delete_user user_id db;
         if (success : bool) then
           Return (create_success_response
                     (JDict [(u "message",
                              JStr (u "User deleted successfully"))]) 200,
                   db')
         else
           Return (create_error_response (u "Failed to delete user") 500, db')
     end)
    (create_error_response (u "Internal server error") 500, db).

(** [GET /search]; [name] is [request.args.get('name')], and
    [if not name] holds for [None] and for the empty string. *)
Definition search_users (name : option (list N)) (db : list Users.row)
    : response :=
  match name with
  | None => create_error_response (u "Please provide a name to search") 400
  | Some name =>
      if bool_decide (name = []) then
        create_error_response (u "Please provide a name to search") 400
      else
        except_exception
          (users ← UserService.search_users name db;
           Return (jsonify (JDict [(u "users", JList (user_dict <$> users))])))
          (create_error_response (u "Internal server error") 500)
  end.

End Handlers.

(** Two rows that agree on every column but [password]. *)
Definition same_public (r1 r2 : Users.row) : Prop :=
  Users.id r1 = Users.id r2 ∧ Users.name r1 = Users.name r2
  ∧ Users.email r1 = Users.email r2.

(** A backend to run the code on examples: keys count up from the
    largest one in the table, the digest is a stand-in that keeps the
    bytes, and a row is taken when its three strings are, together,
    within [SQLITE_MAX_LENGTH]. *)
Definition counting_backend : Backend := {|
  sha256_hexdigest bytes := u "sha256:" ++ bytes;
  new_id db := foldr Z.max 0 (Users.id <$> db) + 1;
  stores r :=
    Z.of_nat (length (flat_map utf8
                        (Users.name r ++ Users.email r ++ Users.password r)))
    <=? Sqlite.max_length
|}.

End AppRefactored.

(** ** Search terms *)

Module Like.




End Like.

(** ** messy-migration/app_refactored.py: the handlers that read a body *)

Module UserApi.
Import Py Unicode AppRefactored.

(** The body of a request: [request.is_json] is false;
    [request.get_json()] raises (the body is not JSON); or it returns a
    dict whose values are strings, as the validators and [hash_password]
    take them.  A body that parses to another document (a dict with a
    value that is no string, or no dict at all) is not among the
    requests of this model. *)
Inductive request :=
| NotJson
| Malformed
| Body (data : gmap (list N) (list N)).

(** [data[key]], [KeyError] when the key is absent. *)
Definition item (data : gmap (list N) (list N)) (key : list N)
    : result (list N) :=
  from_option Return (Raise (KeyError key)) (data !! key).

Section Handlers.
Context `{Backend}.

(** [POST /users] *)
Definition create_user (req : request) (db : list Users.row)
    : response * list Users.row :=
  match req with
  | NotJson =>
      (create_error_response (u "Content-Type must be application/json") 400,
       db)
  | Malformed => (create_error_response (u "Internal server error") 500, db)
  | Body data =>
      except_exception
        ('(is_valid, error_message) ←
           UserValidator.validate_user_data data
             [u "name"; u "email"; u "password"];
         if negb is_valid then
           Return (create_error_response error_message 400, db)
         else
           email ← item data (u "email");
           email ← Sqlite.bind_text email;
           let existing :=
             Users.id <$> filter (λ r, Users.email r = email) db in
           if negb (bool_decide (existing = [])) then
             Return (create_error_response
                       (u "User with this email already exists") 409, db)
           else
             name ← item data (u "name");
             email ← item data (u "email");
             password ← item data (u "password");
             '(user_id, db') ← UserService.create_user name email password db;
             Return (create_success_response
                       (JDict [(u "id", optional_int user_id);
                               (u "name", JStr name);
                               (u "email", JStr email)]) 201, db'))
        (create_error_response (u "Internal server error") 500, db)
  end.

(** [PUT /user/<int:user_id>] *)
Definition update_user (user_id : Z) (req : request) (db : list Users.row)
    : response * list Users.row :=
  match req with
  | NotJson =>
      (create_error_response (u "Content-Type must be application/json") 400,
       db)
  | Malformed => (create_error_response (u "Internal server error") 500, db)
  | Body data =>
      except_exception
        ('(is_valid, error_message) ←
           UserValidator.validate_user_data data [u "name"; u "email"];
         if negb is_valid then
           Return (create_error_response error_message 400, db)
         else
           existing_user ← UserService.get_user_by_id user_id db;
           match existing_user with
           | None =>
               Return (create_error_response (u "User not found") 404, db)
           | Some _ =>
               email ← item data (u "email");
               email ← Sqlite.bind_text email;
               other_id ← Sqlite.bind_int user_id;
               let email_exists :=
                 Users.id <$> filter (λ r, Users.email r = email
                                           ∧ Users.id r ≠ other_id) db in
               if negb (bool_decide (email_exists = [])) then
                 Return (create_error_response
                           (u "Email already taken by another user") 409, db)
               else
                 name ← item data (u "name");
                 email ← item data (u "email");
                 '(success, db') ←
                   UserService.update_user user_id name email db;
                 if (success : bool) then
                   Return (create_success_response
                             (JDict [(u "id", JInt user_id);
                                     (u "name", JStr name);
                                     (u "email", JStr email)]) 200, db')
                 else
                   Return (create_error_response
                             (u "Failed to update user") 500, db')
           end)
        (create_error_response (u "Internal server error") 500, db)
  end.

(** [POST /login]; [if user_id:] is false for [None] and for [0]. *)
Definition login (req : request) (db : list Users.row) : response :=
  match req with
  | NotJson =>
      create_error_response (u "Content-Type must be application/json") 400
  | Malformed => create_error_response (u "Internal server error") 500
  | Body data =>
      except_exception
        (if bool_decide (data = ∅)
            || negb (bool_decide (is_Some (data !! u "email")))
            || negb (bool_decide (is_Some (data !! u "password"))) then
           Return (create_error_response
                     (u "Email and password are required") 400)
         else
           email ← item data (u "email");
           if negb (UserValidator.validate_email email) then
             Return (create_error_response (u "Invalid email format") 400)
           else
             email ← item data (u "email");
             password ← item data (u "password");
             user_id ← UserService.authenticate_user email password db;
             match user_id with
             | Some user_id =>
                 if negb (user_id =? 0) then
                   Return (create_success_response
                             (JDict [(u "user_id", JInt user_id);
                                     (u "message",
                                      JStr (u "Login successful"))]) 200)
                 else
                   Return (create_error_response
                             (u "Invalid email or password") 401)
             | None =>
                 Return (create_error_response
                           (u "Invalid email or password") 401)
             end)
        (create_error_response (u "Internal server error") 500)
  end.

End Handlers.

(** The requests that change the table, and the table after a sequence
    of them. *)
Inductive call :=
| PostUsers (req : request)
| PutUser (user_id : Z) (req : request)
| DeleteUser (user_id : Z).

Section Serve.
Context `{Backend}.

Definition serve (db : list Users.row) (c : call) : list Users.row :=
  match c with
  | PostUsers req => (create_user req db).2
  | PutUser user_id req => (update_user user_id req db).2
  | DeleteUser user_id => (AppRefactored.delete_user user_id db).2
  end.

Definition serve_all (cs : list call) (db : list Users.row) : list Users.row :=
  foldl serve db cs.

End Serve.


(** The payloads that pass [validate_user_data] in [POST /users] and in
    [PUT /user/<id>].  The second handler does not use [password], yet
    the validator checks it when it is present. *)
Definition valid_new_user (data : gmap (list N) (list N))
    (name email password : list N) : Prop :=
  data !! u "name" = Some name ∧ data !! u "email" = Some email
  ∧ data !! u "password" = Some password
  ∧ UserValidator.validate_name name = true
  ∧ UserValidator.validate_email email = true
  ∧ UserValidator.validate_password password = true.


End UserApi.

(** ** What the handlers take from Flask *)

Module Flask.

(** A JSON document as [request.get_json()] returns it and as [jsonify]
    takes it: [None], [bool], [int], [float], [str], [list], [dict]. *)
#[warnings="-register-all"]
Inductive jvalue :=
| JNull
| JBool (b : bool)
| JInt (z : Z)
| JFloat (f : float)
| JStr (s : string)
| JArr (items : list jvalue)
| JObj (fields : gmap string jvalue).

(** A response: a JSON document with its status code, or a redirection
    ([redirect(location, code)]). *)
Inductive response :=
| Json (body : jvalue) (status : Z)
| Redirect (location : string) (code : Z).

Definition status_code (resp : response) : Z :=
  match resp with
  | Json _ status => status
  | Redirect _ code => code
  end.

(** [{"error": message}] *)
Definition error_body (message : string) : jvalue :=
  JObj {["error" := JStr message]}.

(** A call returns, or raises an exception that the handler's
    [except Exception] catches. *)
Inductive outcome (A : Type) :=
| Returns (a : A)
| Raises.
Arguments Returns {A} a.
Arguments Raises {A}.

#[export] Instance outcome_ret : MRet outcome := λ A a, Returns a.
#[export] Instance outcome_bind : MBind outcome := λ A B f x,
  match x with
  | Returns a => f a
  | Raises => Raises
  end.
#[export] Instance outcome_fmap : FMap outcome := λ A B f x,
  match x with
  | Returns a => Returns (f a)
  | Raises => Raises
  end.

(** [try: ... except Exception: handler] *)
Definition except_exception {A : Type} (body : outcome A) (handler : A) : A :=
  match body with
  | Returns a => a
  | Raises => handler
  end.

(** The truth value of a document ([not data] is its negation). *)
Definition truthy (v : jvalue) : bool :=
  match v with
  | JNull => false
  | JBool b => b
  | JInt z => negb (z =? 0)
  | JFloat f => negb (PrimFloat.eqb f 0)
  | JStr s => negb (String.eqb s "")
  | JArr items => negb (bool_decide (items = []))
  | JObj fields => negb (bool_decide (fields = ∅))
  end.

(** [key in v] for a [str] key: a key of a dict, an element of a list,
    a substring of a string; [TypeError] for a value that is not a
    container. *)
Definition contains (key : string) (v : jvalue) : outcome bool :=
  match v with
  | JObj fields => Returns (bool_decide (is_Some (fields !! key)))
  | JArr items =>
      Returns (existsb (λ item, match item with
                                | JStr s => String.eqb s key
                                | _ => false
                                end) items)
  | JStr s => Returns (bool_decide (is_Some (String.index 0 key s)))
  | JNull | JBool _ | JInt _ | JFloat _ => Raises
  end.

(** [v[key]] for a [str] key: the value of a dict, [KeyError] when the
    key is absent; [TypeError] for any other value. *)
Definition subscript (v : jvalue) (key : string) : outcome jvalue :=
  match v with
  | JObj fields =>
      match fields !! key with
      | Some x => Returns x
      | None => Raises
      end
  | _ => Raises
  end.

End Flask.

(** ** url-shortener/app/main.py *)

Module Main.
Import Flask.

(** The body of a request, as [shorten_url] sees it: [request.is_json]
    is false; [request.get_json()] raises; or it returns a document. *)
Inductive request :=
| NotJson
| InvalidJson
| JsonBody (data : jvalue).

(** [GET /] and [GET /api/health] *)
Definition health_check : response :=
  Json (JObj {["status" := JStr "healthy";
               "service" := JStr "URL Shortener API"]}) 200.

Definition api_health : response :=
  Json (JObj {["status" := JStr "ok";
               "message" := JStr "URL Shortener API is running"]}) 200.

(** [data['url'].strip()]: [AttributeError] unless the value is a [str]. *)
Definition strip_method (v : jvalue) : outcome string :=
  match v with
  | JStr s => Returns (Latin1.strip s)
  | _ => Raises
  end.

Section Handlers.
Context {G : Type} `{Utils.RandomSource G}.

(** [POST /api/shorten].  [now] is the time of the call, [g] the state
    of the random generator, [st] the store [url_store]. *)
Definition shorten_url (now : float) (req : request) (g : G)
    (st : Models.URLStore) : response * G * Models.URLStore :=
  match req with
  | NotJson =>
      (Json (error_body "Content-Type must be application/json") 400, g, st)
  | InvalidJson =>
      (Json (error_body "Invalid JSON in request body") 400, g, st)
  | JsonBody data =>
      except_exception
        (missing ← (if negb (truthy data) then Returns true
                    else negb <$> contains "url" data);
         if (missing : bool) then
           Returns (Json (error_body "URL is required in request body") 400,
                    g, st)
         else
           original_url ← subscript data "url" ≫= strip_method;
           let original_url := Utils.sanitize_url original_url in
           if negb (Utils.is_valid_url original_url) then
             Returns (Json (error_body "Invalid URL provided") 400, g, st)
           else
             match Utils.generate_short_code_default g with
             | None => Raises
             | Some (short_code, g') =>
                 let '(mapping, st') :=
                   Models.add_mapping now short_code original_url st in
                 let short_url := "http://localhost:5000/" +:+ short_code in
                 Returns (Json (JObj {["short_code" := JStr short_code;
                                       "short_url" := JStr short_url]}) 201,
                          g', st')
             end)
        (Json (error_body "Internal server error") 500, g, st)
  end.

End Handlers.

(** [GET /<short_code>].  [mapping] is the instance [get_mapping]
    returned; its [original_url] is read after [increment_clicks]. *)
Definition redirect_to_url (short_code : string) (st : Models.URLStore)
    : outcome response * Models.URLStore :=
  match Models.get_mapping short_code st with
  | None => (Returns (Json (error_body "Short code not found") 404), st)
  | Some mapping =>
      let st' := (Models.increment_clicks short_code st).2 in
      (m ← from_option Returns Raises (Models.deref st' mapping);
       Returns (Redirect (Models.original_url m) 302),
       st')
  end.

(** [GET /api/stats/<short_code>].  [format_timestamp] goes through
    [datetime.fromtimestamp] and the time zone of the host; it is a
    parameter here. *)
Definition get_stats (format_timestamp : float → string)
    (short_code : string) (st : Models.URLStore) : outcome response :=
  match Models.get_mapping short_code st with
  | None => Returns (Json (error_body "Short code not found") 404)
  | Some mapping =>
      m ← from_option Returns Raises (Models.deref st mapping);
      Returns (Json (JObj {["url" := JStr (Models.original_url m);
                            "clicks" := JInt (Models.clicks m);
                            "created_at" :=
                              JStr (format_timestamp (Models.created_at m))]})
                    200)
  end.

(** The requests to the shortener, and the generator and the store
    after a sequence of them. *)
Inductive call :=
| Shorten (now : float) (req : request)
| Follow (short_code : string)
| Stats (short_code : string).

Section Serve.
Context {G : Type} `{Utils.RandomSource G}.

Definition serve (s : G * Models.URLStore) (c : call) : G * Models.URLStore :=
  match c with
  | Shorten now req =>
      let '(_, g', st') := shorten_url now req s.1 s.2 in (g', st')
  | Follow short_code => (s.1, (redirect_to_url short_code s.2).2)
  | Stats _ => s
  end.

Definition serve_all (cs : list call) (s : G * Models.URLStore)
    : G * Models.URLStore :=
  foldl serve s cs.

End Serve.

(** [n] requests [GET /<short_code>] in a row. *)
Definition follow (short_code : string) (n : nat) (st : Models.URLStore)
    : Models.URLStore :=
  Nat.iter n (λ st, (redirect_to_url short_code st).2) st.

(** What the handlers keep true of the store: every key is bound to a
    live record that carries the key as its code, a code of six
    characters of [[A-Za-z0-9]], a URL that [is_valid_url] accepts and
    that begins with [http://] or [https://], and a counter that is not
    negative. *)
Definition valid_record (m : Models.URLMapping) : Prop :=
  Utils.is_valid_url (Models.original_url m) = true
  ∧ (String.prefix "http://" (Models.original_url m) = true
     ∨ String.prefix "https://" (Models.original_url m) = true)
  ∧ String.length (Models.short_code m) = 6%nat
  ∧ Forall (λ c, Utils.alnum c = true)
           (list_ascii_of_string (Models.short_code m))
  ∧ 0 ≤ Models.clicks m.

Definition valid_store (st : Models.URLStore) : Prop :=
  ∀ code r, Models.mappings st !! code = Some r →
    ∃ m, Models.objects st !! r = Some m ∧ Models.short_code m = code
         ∧ valid_record m.

End Main.

(* ===================================================================== *)
(** * Part II: properties                                                 *)
(* ===================================================================== *)

(** ** The URL store *)

Module ModelsFacts.
Import Models.

Lemma run_cons c cs st : run (c :: cs) st = run cs (exec st c).
Proof. reflexivity. Qed.

Lemma run_snoc cs c st : run (cs ++ [c]) st = exec (run cs st) c.
Proof. unfold run. by rewrite foldl_app. Qed.

Lemma wf_init : wf init.
Proof. intros code r Hr. simpl in Hr. by rewrite lookup_empty in Hr. Qed.

Lemma wf_add_mapping now code url st :
  wf st → wf (add_mapping now code url st).2.
Proof.
  intros Hwf code' r; simpl.
  destruct (decide (code = code')) as [<-|Hne].
  - rewrite lookup_insert_eq. intros [= <-].
    eexists. split; [by apply list_lookup_middle|]. simpl. split; [done|lia].
  - rewrite lookup_insert_ne by done. intros Hr.
    destruct (Hwf _ _ Hr) as (m & Hm & Hc & Hk).
    exists m. split; [by apply lookup_app_l_Some|done].
Qed.

Lemma wf_increment_clicks code st :
  wf st → wf (increment_clicks code st).2.
Proof.
  intros Hwf code' r. unfold increment_clicks.
  destruct (mappings st !! code) as [r0|] eqn:E; simpl; [|apply Hwf].
  intros Hr. destruct (Hwf _ _ Hr) as (m & Hm & Hc & Hk).
  destruct (decide (r0 = r)) as [->|Hne].
  - exists (click m). rewrite list_lookup_alter_eq, Hm. simpl.
    split; [done|]. split; [done|lia].
  - exists m. by rewrite list_lookup_alter_ne.
Qed.

Lemma wf_exec st c : wf st → wf (exec st c).
Proof.
  intros Hwf. destruct c as [now code url|code|code|]; simpl.
  - by apply wf_add_mapping.
  - done.
  - by apply wf_increment_clicks.
  - done.
Qed.

Lemma wf_run cs st : wf st → wf (run cs st).
Proof.
  revert st. induction cs as [|c cs IH]; intros st Hwf; [done|].
  rewrite run_cons. apply IH, wf_exec, Hwf.
Qed.

Lemma reachable_wf st : reachable st → wf st.
Proof. intros [cs ->]. apply wf_run, wf_init. Qed.

Lemma reachable_run cs st : reachable st → reachable (run cs st).
Proof.
  intros [cs0 ->]. exists (cs0 ++ cs). unfold run. by rewrite foldl_app.
Qed.

Lemma same_identity_refl m : same_identity m m.
Proof. by repeat split. Qed.

Lemma same_identity_trans m1 m2 m3 :
  same_identity m1 m2 → same_identity m2 m3 → same_identity m1 m3.
Proof. unfold same_identity. intros (-> & -> & ->) (-> & -> & ->). done. Qed.

(** One call leaves every live instance in place; it changes at most the
    counter, and only when it is [increment_clicks] on the instance's
    own code. *)
Lemma exec_objects st c r m :
  wf st → objects st !! r = Some m →
  ∃ m', objects (exec st c) !! r = Some m' ∧ same_identity m m'
        ∧ (is_increment (short_code m) c = false → m' = m).
Proof.
  intros Hwf Hm. destruct c as [now code url|code|code|]; simpl.
  - exists m. split; [by apply lookup_app_l_Some|].
    split; [apply same_identity_refl|done].
  - exists m. split; [done|]. split; [apply same_identity_refl|done].
  - unfold increment_clicks.
    destruct (mappings st !! code) as [r0|] eqn:E; simpl.
    + destruct (decide (r0 = r)) as [->|Hne].
      * destruct (Hwf _ _ E) as (m0 & Hm0 & Hc & _).
        assert (m0 = m) as -> by congruence.
        exists (click m). rewrite list_lookup_alter_eq, Hm. simpl.
        split; [done|]. split; [by repeat split|].
        rewrite Hc. by rewrite bool_decide_eq_false.
      * exists m. rewrite list_lookup_alter_ne by done.
        split; [done|]. split; [apply same_identity_refl|done].
    + exists m. split; [done|]. split; [apply same_identity_refl|done].
  - exists m. split; [done|]. split; [apply same_identity_refl|done].
Qed.

Lemma run_objects cs st r m :
  wf st → objects st !! r = Some m →
  ∃ m', objects (run cs st) !! r = Some m' ∧ same_identity m m'
        ∧ (Forall (λ c, is_increment (short_code m) c = false) cs → m' = m).
Proof.
  revert st m. induction cs as [|c cs IH]; intros st m Hwf Hm.
  - exists m. split; [done|]. split; [apply same_identity_refl|done].
  - rewrite run_cons.
    destruct (exec_objects st c r m Hwf Hm) as (m1 & Hm1 & Hid1 & Heq1).
    destruct (IH (exec st c) m1 (wf_exec _ c Hwf) Hm1)
      as (m2 & Hm2 & Hid2 & Heq2).
    exists m2. split; [done|].
    split; [by eapply same_identity_trans|].
    intros Hall. apply Forall_cons in Hall as [Hc Hcs].
    specialize (Heq1 Hc). subst m1. by apply Heq2.
Qed.

(** [n] increments of a bound code add [n] to the counter of the bound
    instance and leave the binding alone. *)
Lemma run_increments code n st r m :
  mappings st !! code = Some r → objects st !! r = Some m →
  ∃ m', mappings (run (replicate n (IncrementClicks code)) st) !! code = Some r
        ∧ objects (run (replicate n (IncrementClicks code)) st) !! r = Some m'
        ∧ same_identity m m' ∧ clicks m' = clicks m + Z.of_nat n.
Proof.
  revert st m. induction n as [|n IH]; intros st m Hr Hm.
  - exists m. simpl. repeat split; try done. lia.
  - simpl replicate. rewrite run_cons. simpl exec.
    unfold increment_clicks. rewrite Hr. simpl.
    destruct (IH {| objects := alter click r (objects st);
                    mappings := mappings st |} (click m)) as (m' & H1 & H2 & H3 & H4).
    + done.
    + simpl. by rewrite list_lookup_alter_eq, Hm.
    + exists m'. split; [done|]. split; [done|].
      split; [exact H3|]. rewrite H4. simpl. lia.
Qed.

Lemma run_never_added code cs st :
  mappings st !! code = None →
  Forall (λ c, is_add code c = false) cs →
  mappings (run cs st) !! code = None.
Proof.
  revert st. induction cs as [|c cs IH]; intros st Hst Hall; [done|].
  apply Forall_cons in Hall as [Hc Hcs]. rewrite run_cons.
  apply IH; [|done].
  destruct c as [now code' url|code'|code'|]; simpl in *; try done.
  - apply bool_decide_eq_false in Hc. by rewrite lookup_insert_ne.
  - unfold increment_clicks. by destruct (mappings st !! code').
Qed.

(** C1 (as stated it fails): a copy taken by [get_all_mappings] holds
    the stored instances themselves, so an [increment_clicks] that
    follows the snapshot shows in the copy: the counter read through the
    copy goes from 0 to 1. *)
Lemma snapshot_shares_records :
  let st1 := (add_mapping 0%float "abc" "https://x.com" init).2 in
  let snap := get_all_mappings st1 in
  let st2 := (increment_clicks "abc" st1).2 in
  clicks <$> shows snap st1 "abc" = Some 0
  ∧ clicks <$> shows snap st2 "abc" = Some 1
  ∧ shows snap st2 "abc" ≠ shows snap st1 "abc".
Proof. repeat split. vm_compute. discriminate. Qed.

(** C1 (amended): the copy returned by [get_all_mappings] is a dict of
    its own over the stored instances.  Whatever calls follow the
    snapshot, every code of the copy keeps showing a record with the
    same [original_url], [short_code] and [created_at]; and the record
    is unchanged altogether, counter included, when none of these calls
    is [increment_clicks] on that code.  In particular no [add_mapping]
    that follows the snapshot is visible in the copy. *)
Theorem snapshot_frame st cs code m :
  reachable st →
  shows (get_all_mappings st) st code = Some m →
  ∃ m', shows (get_all_mappings st) (run cs st) code = Some m'
        ∧ original_url m' = original_url m
        ∧ short_code m' = short_code m
        ∧ created_at m' = created_at m
        ∧ (Forall (λ c, is_increment code c = false) cs → m' = m).
Proof.
  intros Hreach Hshow. apply reachable_wf in Hreach.
  unfold shows, get_all_mappings in *.
  destruct (mappings st !! code) as [r|] eqn:Hr; simpl in *; [|done].
  unfold deref in *.
  destruct (Hreach _ _ Hr) as (m0 & Hm0 & Hcode & _).
  assert (m0 = m) as -> by congruence.
  destruct (run_objects cs st r m Hreach Hshow) as (m' & Hm' & Hid & Heq).
  exists m'. destruct Hid as (? & ? & ?). rewrite Hcode in Heq. done.
Qed.

Lemma snapshot_frame_witness :
  let st := (add_mapping 0%float "abc" "https://x.com" init).2 in
  let cs := [AddMapping 1%float "xyz" "https://y.com"; IncrementClicks "xyz";
             AddMapping 2%float "abc" "https://z.com"; GetAllMappings] in
  shows (get_all_mappings st) (run cs st) "abc"
  = Some (mkURLMapping "https://x.com" "abc" 0%float 0).
Proof.
  intros st cs.
  destruct (snapshot_frame st cs "abc"
              (mkURLMapping "https://x.com" "abc" 0%float 0))
    as (m' & Hm' & _ & _ & _ & Heq).
  - exists [AddMapping 0%float "abc" "https://x.com"]. reflexivity.
  - reflexivity.
  - rewrite Hm'. f_equal. apply Heq. repeat constructor.
Defined.

(** C2: [increment_clicks code] returns [True] and adds exactly one to
    the counter stored for [code] when [code] is bound, returns [False]
    and leaves the store as it is when [code] is not bound; after
    [add_mapping code url] and [n] calls of [increment_clicks code] the
    counter stored for [code] is [n]. *)
Theorem increment_clicks_spec (st : URLStore) (code : string) :
  (∀ r m, get_mapping code st = Some r → deref st r = Some m →
     (increment_clicks code st).1 = true
     ∧ get_mapping code (increment_clicks code st).2 = Some r
     ∧ ∃ m', deref (increment_clicks code st).2 r = Some m'
             ∧ clicks m' = clicks m + 1)
  ∧ (get_mapping code st = None → increment_clicks code st = (false, st))
  ∧ (∀ now url n,
       clicks <$> stored (run (AddMapping now code url
                                 :: replicate n (IncrementClicks code)) st) code
       = Some (Z.of_nat n)).
Proof.
  unfold get_mapping, deref. split; [|split].
  - intros r m Hr Hm. unfold increment_clicks. rewrite Hr. simpl.
    split; [done|]. split; [done|]. exists (click m).
    by rewrite list_lookup_alter_eq, Hm.
  - intros Hr. unfold increment_clicks. by rewrite Hr.
  - intros now url n. rewrite run_cons.
    destruct (run_increments code n (exec st (AddMapping now code url))
                (length (objects st)) (mkURLMapping url code now 0))
      as (m' & H1 & H2 & _ & H4).
    + simpl. apply lookup_insert_eq.
    + simpl. by apply list_lookup_middle.
    + unfold stored, shows, deref. rewrite H1.
      change (clicks <$> objects (run (replicate n (IncrementClicks code))
                (exec st (AddMapping now code url))) !! length (objects st)
              = Some (Z.of_nat n)).
      rewrite H2. simpl. f_equal. rewrite H4. simpl. lia.
Qed.

Lemma increment_clicks_spec_witness :
  let st := (add_mapping 0%float "abc" "https://x.com" init).2 in
  (increment_clicks "abc" st).1 = true
  ∧ increment_clicks "missing" st = (false, st)
  ∧ clicks <$> stored (run (AddMapping 1%float "abc" "https://x.com"
                              :: replicate 3 (IncrementClicks "abc")) st) "abc"
    = Some 3.
Proof.
  intros st.
  destruct (increment_clicks_spec st "abc") as (Hyes & _ & Hn).
  destruct (increment_clicks_spec st "missing") as (_ & Hno & _).
  split; [|split].
  - eapply Hyes; reflexivity.
  - apply Hno. reflexivity.
  - apply (Hn 1%float "https://x.com" 3%nat).
Defined.

(** C3: [add_mapping code url] binds [code] (new or already bound) to a
    record made of [url], [code], the time of the call and a counter of
    zero, and returns that record; [get_mapping code] right after
    returns the same record; [get_mapping] of a code that no
    [add_mapping] was called with returns [None]. *)
Theorem add_mapping_spec (now : float) (code url : string) (st : URLStore) :
  let r := (add_mapping now code url st).1 in
  let st' := (add_mapping now code url st).2 in
  deref st' r = Some (mkURLMapping url code now 0)
  ∧ get_mapping code st' = Some r
  ∧ stored st' code = Some (mkURLMapping url code now 0)
  ∧ (∀ code', code' ≠ code → get_mapping code' st' = get_mapping code' st)
  ∧ (∀ cs code', Forall (λ c, is_add code' c = false) cs →
       get_mapping code' (run cs init) = None).
Proof.
  simpl. unfold get_mapping, stored, shows, deref. simpl.
  split; [by apply list_lookup_middle|].
  split; [apply lookup_insert_eq|].
  split; [rewrite lookup_insert_eq; simpl; by apply list_lookup_middle|].
  split.
  - intros code' Hne. by rewrite lookup_insert_ne.
  - intros cs code' Hall. by apply run_never_added.
Qed.

Lemma add_mapping_spec_witness :
  let st := (add_mapping 0%float "abc" "https://old.com" init).2 in
  let st' := (add_mapping 1%float "abc" "https://x.com" st).2 in
  stored st' "abc" = Some (mkURLMapping "https://x.com" "abc" 1%float 0)
  ∧ get_mapping "missing" st' = None.
Proof.
  intros st st'.
  destruct (add_mapping_spec 1%float "abc" "https://x.com" st)
    as (_ & _ & Hs & _ & Hnone).
  split; [exact Hs|].
  apply (Hnone [AddMapping 0%float "abc" "https://old.com";
                AddMapping 1%float "abc" "https://x.com"] "missing").
  repeat constructor.
Defined.

(** C9: on a store reached through its methods, [increment_clicks code]
    for a bound [code] changes nothing but the counter of the record
    stored under [code]: that record keeps its [original_url],
    [short_code] and [created_at], the bindings are the same, and the
    record stored under any other code is unchanged. *)
Theorem increment_clicks_frame (st : URLStore) (code : string) (m : URLMapping) :
  reachable st →
  stored st code = Some m →
  let st' := (increment_clicks code st).2 in
  (∃ m', stored st' code = Some m'
         ∧ original_url m' = original_url m
         ∧ short_code m' = short_code m
         ∧ created_at m' = created_at m
         ∧ clicks m' = clicks m + 1)
  ∧ mappings st' = mappings st
  ∧ (∀ code', code' ≠ code → stored st' code' = stored st code').
Proof.
  intros Hreach Hm. apply reachable_wf in Hreach. simpl.
  unfold stored, shows, deref in *. unfold increment_clicks.
  destruct (mappings st !! code) as [r|] eqn:Hr; simpl in *; [|done].
  split; [|split].
  - exists (click m). rewrite Hr. simpl.
    by rewrite list_lookup_alter_eq, Hm.
  - done.
  - intros code' Hne.
    destruct (mappings st !! code') as [r'|] eqn:Hr'; simpl; [|done].
    apply list_lookup_alter_ne. intros ->.
    destruct (Hreach _ _ Hr) as (m1 & Hm1 & Hc1 & _).
    destruct (Hreach _ _ Hr') as (m2 & Hm2 & Hc2 & _).
    congruence.
Qed.

Lemma increment_clicks_frame_witness :
  let st := run [AddMapping 0%float "abc" "https://x.com";
                 AddMapping 1%float "xyz" "https://y.com"] init in
  stored (increment_clicks "abc" st).2 "xyz"
  = Some (mkURLMapping "https://y.com" "xyz" 1%float 0).
Proof.
  intros st.
  destruct (increment_clicks_frame st "abc"
              (mkURLMapping "https://x.com" "abc" 0%float 0))
    as (_ & _ & Hother).
  - by eexists.
  - reflexivity.
  - rewrite Hother; [reflexivity|discriminate].
Defined.

(** C10: in every state reached from the empty store by [add_mapping],
    [get_mapping], [increment_clicks] and [get_all_mappings], every key
    is bound to a record whose [short_code] is the key and whose counter
    is not negative. *)
Theorem reachable_invariant (cs : list call) (code : string) :
  is_Some (get_mapping code (run cs init)) →
  ∃ m, stored (run cs init) code = Some m
       ∧ short_code m = code ∧ 0 ≤ clicks m.
Proof.
  intros [r Hr]. unfold get_mapping in Hr.
  destruct (wf_run cs init wf_init _ _ Hr) as (m & Hm & Hc & Hk).
  exists m. unfold stored, shows, deref. rewrite Hr. done.
Qed.

Lemma reachable_invariant_witness :
  ∃ m, stored (run [AddMapping 0%float "abc" "https://x.com";
                    IncrementClicks "abc"; GetMapping "abc";
                    AddMapping 1%float "abc" "https://y.com";
                    IncrementClicks "abc"; GetAllMappings] init) "abc" = Some m
       ∧ short_code m = "abc" ∧ 0 ≤ clicks m.
Proof. apply reachable_invariant. by eexists. Defined.

Lemma stored_exec st c code :
  wf st → stored (exec st c) code = replay_call code (stored st code) c.
Proof.
  intros Hwf. unfold stored, shows, deref.
  destruct c as [now code' url|code'|code'|]; simpl; [|done| |done].
  - destruct (bool_decide_reflect (code' = code)) as [->|Hne].
    + rewrite lookup_insert_eq. simpl. by apply list_lookup_middle.
    + rewrite lookup_insert_ne by done.
      destruct (mappings st !! code) as [r|] eqn:Hr; simpl; [|done].
      destruct (Hwf _ _ Hr) as (m & Hm & _).
      rewrite Hm. by apply lookup_app_l_Some.
  - unfold increment_clicks.
    destruct (mappings st !! code') as [r'|] eqn:Hr'; simpl.
    + destruct (bool_decide_reflect (code' = code)) as [->|Hne].
      * rewrite Hr'. simpl. by rewrite list_lookup_alter_eq.
      * destruct (mappings st !! code) as [r|] eqn:Hr; simpl; [|done].
        apply list_lookup_alter_ne. intros ->.
        destruct (Hwf _ _ Hr) as (m1 & Hm1 & Hc1 & _).
        destruct (Hwf _ _ Hr') as (m2 & Hm2 & Hc2 & _).
        congruence.
    + destruct (bool_decide_reflect (code' = code)) as [->|Hne]; [|done].
      by rewrite Hr'.
Qed.

Lemma stored_run cs st code :
  wf st →
  stored (run cs st) code = foldl (replay_call code) (stored st code) cs.
Proof.
  revert st. induction cs as [|c cs IH]; intros st Hwf; [done|].
  rewrite run_cons, IH by (by apply wf_exec). simpl.
  by rewrite stored_exec.
Qed.

(** X18: After any sequence of calls on a new store, the record stored
    under a code is determined by the calls that name that code alone:
    there is none if no [add_mapping] named it; otherwise it holds the
    URL and the time of the last [add_mapping] on the code and a counter
    equal to the number of [increment_clicks] on the code since.  Calls
    on other codes, [get_mapping] and [get_all_mappings] do not show. *)
Theorem stored_replay (cs : list call) (code : string) :
  stored (run cs init) code = replay code cs.
Proof.
  rewrite stored_run by apply wf_init. unfold replay. f_equal.
Qed.

Example stored_replay_example :
  replay "abc" [AddMapping 0%float "abc" "https://old.com";
                IncrementClicks "abc"; AddMapping 1%float "xyz" "https://y.com";
                AddMapping 2%float "abc" "https://x.com"; IncrementClicks "xyz";
                IncrementClicks "abc"; GetAllMappings; IncrementClicks "abc"]
  = Some (mkURLMapping "https://x.com" "abc" 2%float 2).
Proof. reflexivity. Qed.

End ModelsFacts.

(** ** Short codes *)

Module UtilsFacts.
Import Utils.

Lemma characters_length : String.length characters = 62%nat.
Proof. reflexivity. Qed.

Lemma characters_alnum (c : ascii) :
  c ∈ list_ascii_of_string characters ↔ alnum c = true.
Proof.
  assert (alnum c = bool_decide (c ∈ list_ascii_of_string characters)) as ->
    by (destruct c as [[] [] [] [] [] [] [] []]; vm_compute; reflexivity).
  symmetry. apply bool_decide_eq_true.
Qed.

Lemma get_lt (s : string) (i : nat) :
  (i < String.length s)%nat →
  ∃ c, String.get i s = Some c ∧ c ∈ list_ascii_of_string s.
Proof.
  revert i. induction s as [|a s IH]; intros i Hi; simpl in *; [lia|].
  destruct i as [|i].
  - exists a. split; [done|]. apply list_elem_of_here.
  - destruct (IH i) as (c & Hc & Hin); [lia|].
    exists c. split; [done|]. by apply list_elem_of_further.
Qed.

Section Random.
Context {G : Type} `{RandomSource G}.

Lemma choice_spec (seq : string) (g : G) :
  (0 < String.length seq)%nat →
  ∃ c g', choice seq g = Some (c, g') ∧ c ∈ list_ascii_of_string seq.
Proof.
  intros Hlen. unfold choice.
  destruct (String.length seq) as [|n] eqn:E; [lia|].
  pose proof (randbelow_lt (S n) g ltac:(lia)) as Hlt.
  destruct (randbelow (S n) g) as [i g']. simpl in Hlt.
  destruct (get_lt seq i) as (c & Hc & Hin); [lia|].
  exists c, g'. rewrite Hc. done.
Qed.

Lemma join_choices_spec (seq : string) (n : nat) (g : G) :
  (0 < String.length seq)%nat →
  ∃ s g', join_choices seq n g = Some (s, g')
          ∧ String.length s = n
          ∧ Forall (λ c, c ∈ list_ascii_of_string seq) (list_ascii_of_string s).
Proof.
  intros Hlen. revert g. induction n as [|n IH]; intros g; simpl.
  - exists EmptyString, g. repeat split. constructor.
  - destruct (choice_spec seq g Hlen) as (c & g1 & -> & Hin). simpl.
    destruct (IH g1) as (s & g2 & -> & Hs & Hall). simpl.
    exists (String c s), g2. simpl. rewrite Hs.
    split; [done|]. split; [done|]. by constructor.
Qed.

(** C8: whatever the random source yields, [generate_short_code()]
    returns a string of exactly 6 characters, each of them one of the 62
    characters of [[A-Za-z0-9]]. *)
Theorem generate_short_code_default_spec (g : G) :
  ∃ s g', generate_short_code_default g = Some (s, g')
          ∧ String.length s = 6%nat
          ∧ Forall (λ c, alnum c = true) (list_ascii_of_string s)
          ∧ String.length characters = 62%nat
          ∧ ∀ c, c ∈ list_ascii_of_string characters ↔ alnum c = true.
Proof.
  unfold generate_short_code_default, generate_short_code.
  destruct (join_choices_spec characters (Z.to_nat 6) g) as (s & g' & Hs & Hlen & Hall).
  { rewrite characters_length. lia. }
  exists s, g'. split; [exact Hs|]. split; [exact Hlen|].
  split; [|split; [reflexivity|apply characters_alnum]].
  eapply Forall_impl; [exact Hall|].
  intros c Hc. by apply characters_alnum.
Qed.

End Random.

Example generate_short_code_lcg :
  generate_short_code_default (G := Z) 2024 = Some ("O5s7uD", 1211540786).
Proof. vm_compute. reflexivity. Qed.

End UtilsFacts.

(** ** The matcher of regular expressions *)

Module ReFacts.
Import Re.

Section Engine.
Context {C : Type}.
Implicit Types (r : regex C) (s : list C) (c : C).

Lemma nullable_matches r : nullable r = true ↔ matches r [].
Proof.
  split.
  - induction r; simpl; intros Hn; try discriminate.
    + constructor.
    + apply andb_true_iff in Hn as [H1 H2].
      change (@nil C) with (@nil C ++ []). constructor; auto.
    + apply orb_true_iff in Hn as [H1|H2];
        [apply matches_alt_l|apply matches_alt_r]; auto.
    + constructor.
  - intros Hm. remember (@nil C) as s eqn:Hs.
    induction Hm; simpl; try done.
    + apply app_eq_nil in Hs as [-> ->].
      rewrite IHHm1, IHHm2; done.
    + rewrite IHHm; done.
    + rewrite IHHm, orb_true_r; done.
Qed.

Lemma deriv_sound c r s : matches (deriv c r) s → matches r (c :: s).
Proof.
  revert s. induction r as [| |p|r1 IH1 r2 IH2|r1 IH1 r2 IH2|r IH];
    simpl; intros s Hm.
  - inversion Hm.
  - inversion Hm.
  - destruct (p c) eqn:Hp; inversion Hm; subst. by constructor.
  - destruct (nullable r1) eqn:Hn.
    + inversion Hm as [| | |? ? ? Hl|? ? ? Hr| |]; subst.
      * inversion Hl as [| |? ? s1 s2 H1 H2| | | |]; subst.
        rewrite app_comm_cons. constructor; auto.
      * change (c :: s) with ([] ++ c :: s).
        constructor; [by apply nullable_matches|auto].
    + inversion Hm as [| |? ? s1 s2 H1 H2| | | |]; subst.
      rewrite app_comm_cons. constructor; auto.
  - inversion Hm; subst; [apply matches_alt_l|apply matches_alt_r]; auto.
  - inversion Hm as [| |? ? s1 s2 H1 H2| | | |]; subst.
    rewrite app_comm_cons. constructor; auto.
Qed.

Lemma deriv_complete c r s : matches r (c :: s) → matches (deriv c r) s.
Proof.
  intros Hm. remember (c :: s) as cs eqn:Hcs. revert c s Hcs.
  induction Hm as [|p c0|r1 r2 s1 s2 H1 IH1 H2 IH2|r1 r2 s0 H IH
                   |r1 r2 s0 H IH|r|r s1 s2 H1 IH1 H2 IH2];
    intros c s Hcs; simpl.
  - discriminate.
  - injection Hcs as -> <-. rewrite H. constructor.
  - destruct s1 as [|c1 s1'].
    + simpl in Hcs. subst s2.
      apply nullable_matches in H1. rewrite H1.
      apply matches_alt_r. by apply IH2.
    + simpl in Hcs. injection Hcs as -> <-.
      destruct (nullable r1);
        [apply matches_alt_l|]; constructor; auto.
  - apply matches_alt_l. by apply IH.
  - apply matches_alt_r. by apply IH.
  - discriminate.
  - destruct s1 as [|c1 s1'].
    + simpl in Hcs. by apply IH2.
    + simpl in Hcs. injection Hcs as -> <-.
      constructor; auto.
Qed.

(** The matcher decides membership in the language of the pattern. *)
Lemma fullmatch_matches r s : fullmatch r s = true ↔ matches r s.
Proof.
  revert r. induction s as [|c s IH]; intros r; simpl.
  - apply nullable_matches.
  - rewrite IH. split; [apply deriv_sound|apply deriv_complete].
Qed.

(** Inversions of [matches], one per form of pattern. *)
Lemma matches_seq_inv r1 r2 s :
  matches (Seq r1 r2) s ↔ ∃ s1 s2, s = s1 ++ s2 ∧ matches r1 s1 ∧ matches r2 s2.
Proof.
  split.
  - inversion 1; subst. eauto.
  - intros (s1 & s2 & -> & H1 & H2). by constructor.
Qed.

Lemma matches_alt_inv r1 r2 s :
  matches (Alt r1 r2) s ↔ matches r1 s ∨ matches r2 s.
Proof.
  split.
  - inversion 1; subst; auto.
  - intros [?|?]; [by apply matches_alt_l|by apply matches_alt_r].
Qed.

Lemma matches_eps_inv s : matches Eps s ↔ s = [].
Proof. split; [by inversion 1|intros ->; constructor]. Qed.

Lemma matches_class_inv p s :
  matches (Class p) s ↔ ∃ c, s = [c] ∧ p c = true.
Proof.
  split.
  - inversion 1; subst. eauto.
  - intros (c & -> & Hp). by constructor.
Qed.

Lemma matches_opt_inv r s : matches (Opt r) s ↔ s = [] ∨ matches r s.
Proof. unfold Opt. by rewrite matches_alt_inv, matches_eps_inv. Qed.

Lemma matches_dollar (is_newline : C → bool) s :
  matches (dollar is_newline) s
  ↔ s = [] ∨ ∃ c, s = [c] ∧ is_newline c = true.
Proof.
  unfold dollar. by rewrite matches_alt_inv, matches_eps_inv, matches_class_inv.
Qed.

(** [re.match] of a pattern that ends in [$]: the pattern consumes the
    string, up to one final newline. *)
Lemma match_anchored_spec (is_newline : C → bool) r s :
  match_anchored is_newline r s = true
  ↔ ∃ v nl, s = v ++ nl ∧ matches r v
            ∧ (nl = [] ∨ ∃ c, nl = [c] ∧ is_newline c = true).
Proof.
  unfold match_anchored. rewrite fullmatch_matches, matches_seq_inv.
  split; intros (v & nl & -> & Hv & Hnl); exists v, nl;
    (split; [done|]); (split; [done|]); by apply matches_dollar.
Qed.

Lemma matches_star_class p s :
  matches (Star (Class p)) s ↔ Forall (λ c, p c = true) s.
Proof.
  split.
  - intros Hm. remember (Star (Class p)) as r eqn:Hr.
    induction Hm as [| | | | | |r s1 s2 H1 _ H2 IH2]; try discriminate.
    + constructor.
    + injection Hr as ->. apply matches_class_inv in H1 as (c & -> & Hc).
      simpl. constructor; auto.
  - induction s as [|c s IH]; intros Hall.
    + constructor.
    + apply Forall_cons in Hall as [Hc Hs].
      change (c :: s) with ([c] ++ s).
      constructor; [by constructor|auto].
Qed.

Lemma matches_plus_class p s :
  matches (Plus (Class p)) s ↔ s ≠ [] ∧ Forall (λ c, p c = true) s.
Proof.
  unfold Plus. rewrite matches_seq_inv. split.
  - intros (s1 & s2 & -> & H1 & H2).
    apply matches_class_inv in H1 as (c & -> & Hc).
    apply matches_star_class in H2.
    split; [done|]. simpl. by constructor.
  - intros [Hne Hall]. destruct s as [|c s]; [done|].
    apply Forall_cons in Hall as [Hc Hs].
    exists [c], s. split; [done|].
    split; [by constructor|by apply matches_star_class].
Qed.

Lemma matches_atleast2_class p s :
  matches (AtLeast2 (Class p)) s
  ↔ (2 ≤ length s)%nat ∧ Forall (λ c, p c = true) s.
Proof.
  unfold AtLeast2. rewrite matches_seq_inv. split.
  - intros (s1 & s2 & -> & H1 & H2).
    apply matches_class_inv in H1 as (c & -> & Hc).
    apply (matches_plus_class p) in H2 as [Hne Hall].
    simpl. split; [destruct s2; [done|simpl; lia]|by constructor].
  - intros [Hlen Hall]. destruct s as [|c s]; [simpl in Hlen; lia|].
    simpl in Hlen. apply Forall_cons in Hall as [Hc Hs].
    exists [c], s. split; [done|].
    split; [by constructor|]. apply (matches_plus_class p).
    split; [|done]. destruct s; [simpl in Hlen; lia|done].
Qed.

End Engine.

End ReFacts.

(** ** Strings of code points below 256 *)

Module Latin1Facts.
Import Re ReFacts Latin1.

Lemma append_nil_l (s : string) : "" +:+ s = s.
Proof. reflexivity. Qed.

Lemma append_cons (c : ascii) (s1 s2 : string) :
  String c s1 +:+ s2 = String c (s1 +:+ s2).
Proof. reflexivity. Qed.

Lemma append_nil_r (s : string) : s +:+ "" = s.
Proof. induction s as [|c s IH]; [done|]. by rewrite append_cons, IH. Qed.

Lemma append_assoc (s1 s2 s3 : string) :
  (s1 +:+ s2) +:+ s3 = s1 +:+ (s2 +:+ s3).
Proof.
  induction s1 as [|c s1 IH]; [done|]. by rewrite !append_cons, IH.
Qed.

Lemma list_of_append (s1 s2 : string) :
  list_ascii_of_string (s1 +:+ s2)
  = list_ascii_of_string s1 ++ list_ascii_of_string s2.
Proof.
  induction s1 as [|c s1 IH]; [done|].
  rewrite append_cons. simpl. by rewrite IH.
Qed.

(** A string is the list of its characters: a splitting of the list is
    a splitting of the string. *)
Lemma string_of_app (l1 l2 : list ascii) :
  string_of_list_ascii (l1 ++ l2)
  = string_of_list_ascii l1 +:+ string_of_list_ascii l2.
Proof.
  induction l1 as [|c l1 IH]; [done|]. simpl. by rewrite append_cons, IH.
Qed.

Lemma string_split (s : string) (l1 l2 : list ascii) :
  list_ascii_of_string s = l1 ++ l2 →
  s = string_of_list_ascii l1 +:+ string_of_list_ascii l2.
Proof.
  intros Hs. by rewrite <- string_of_app, <- Hs, string_of_list_ascii_of_string.
Qed.

Lemma matches_lit_ci lit (s : list ascii) :
  matches (Lit_ci lit) s ↔ eq_ci_string lit (string_of_list_ascii s) = true.
Proof.
  revert s. induction lit as [|a lit IH]; intros s; simpl.
  - rewrite matches_eps_inv. by destruct s.
  - rewrite matches_seq_inv. split.
    + intros (s1 & s2 & -> & H1 & H2).
      apply matches_class_inv in H1 as (c & -> & Hc).
      simpl. rewrite Hc. by apply IH.
    + destruct s as [|c s]; [done|]. simpl. intros Hs.
      apply andb_true_iff in Hs as [Hc Hs].
      exists [c], s. split; [done|].
      split; [by constructor|by apply IH].
Qed.

Lemma all_ascii_complete (c : ascii) : c ∈ all_ascii.
Proof.
  unfold all_ascii. apply list_elem_of_fmap.
  exists (nat_of_ascii c). split; [by rewrite ascii_nat_embedding|].
  apply elem_of_seq. pose proof (nat_ascii_bounded c). lia.
Qed.

Lemma class_within_sound q p c :
  class_within q p = true → p c = true → q c = true.
Proof.
  unfold class_within. rewrite forallb_forall. intros Hall Hp.
  specialize (Hall c). rewrite Hp in Hall. apply Hall.
  apply list_elem_of_In, all_ascii_complete.
Qed.

(** A pattern whose classes all lie within [q] matches strings of
    characters of [q] only. *)
Lemma classes_within_sound q (r : regex ascii) (s : list ascii) :
  classes_within q r = true → matches r s → Forall (λ c, q c = true) s.
Proof.
  intros Hq Hm.
  induction Hm as [|p c Hp|r1 r2 s1 s2 H1 IH1 H2 IH2|r1 r2 s H IH
                   |r1 r2 s H IH|r|r s1 s2 H1 IH1 H2 IH2]; simpl in Hq.
  - constructor.
  - apply Forall_cons.
    split; [eapply class_within_sound; eauto|constructor].
  - apply andb_true_iff in Hq as [Hq1 Hq2]. apply Forall_app. auto.
  - apply andb_true_iff in Hq as [Hq1 Hq2]. auto.
  - apply andb_true_iff in Hq as [Hq1 Hq2]. auto.
  - constructor.
  - apply Forall_app. auto.
Qed.

End Latin1Facts.

(** ** URLs *)

Module UrlFacts.
Import Re ReFacts Latin1 Latin1Facts Utils.

Lemma prefix_append (p s : string) :
  String.prefix p s = true ↔ ∃ rest, s = p +:+ rest.
Proof.
  revert s. induction p as [|a p IH]; intros s.
  - split; [intros _; by exists s|by destruct s].
  - destruct s as [|b s]; simpl.
    + split; [done|]. intros [rest Hrest]. by rewrite append_cons in Hrest.
    + destruct (ascii_dec a b) as [->|Hne].
      * rewrite IH. split; intros [rest Hrest]; exists rest.
        -- by rewrite append_cons, Hrest.
        -- rewrite append_cons in Hrest. by injection Hrest.
      * split; [done|]. intros [rest Hrest].
        rewrite append_cons in Hrest. by injection Hrest as -> _.
Qed.

Lemma one_of_dot c : one_of "." c = true → c = "."%char.
Proof.
  unfold one_of. intros Hc. apply bool_decide_eq_true in Hc.
  by apply list_elem_of_singleton in Hc.
Qed.

Lemma eq_ci_colon c : eq_ci ":" c = true → c = ":"%char.
Proof.
  destruct c as [[] [] [] [] [] [] [] []]; intros Hc; vm_compute in Hc;
    try discriminate; reflexivity.
Qed.

Lemma eq_ci_slash c : eq_ci "/" c = true → c = "/"%char.
Proof.
  destruct c as [[] [] [] [] [] [] [] []]; intros Hc; vm_compute in Hc;
    try discriminate; reflexivity.
Qed.

Lemma eq_ci_string_separator s : eq_ci_string "://" s = true → s = "://".
Proof.
  destruct s as [|c1 [|c2 [|c3 [|c4 s]]]]; simpl; try done.
  - by rewrite andb_false_r.
  - by rewrite !andb_false_r.
  - intros Hs. apply andb_true_iff in Hs as [H1 Hs].
    apply andb_true_iff in Hs as [H2 Hs].
    apply andb_true_iff in Hs as [H3 _].
    apply eq_ci_colon in H1. apply eq_ci_slash in H2, H3. by subst.
  - by rewrite !andb_false_r.
Qed.

Lemma eq_ci_string_app a b s1 s2 :
  eq_ci_string a s1 = true → eq_ci_string b s2 = true →
  eq_ci_string (a +:+ b) (s1 +:+ s2) = true.
Proof.
  revert s1. induction a as [|x a IH]; intros [|c s1]; simpl; try done.
  intros Ha Hb. apply andb_true_iff in Ha as [Hx Ha].
  rewrite ?append_cons. simpl. rewrite Hx. by apply IH.
Qed.

(** A host is [localhost], or it holds a dot. *)
Lemma matches_host (h : list ascii) :
  matches host h →
  (∃ a b, h = a ++ "."%char :: b)
  ∨ eq_ci_string "localhost" (string_of_list_ascii h) = true.
Proof.
  unfold host. rewrite !matches_alt_inv. intros [Hd|[Hl|Hip]].
  - left. unfold domain, Plus in Hd.
    apply matches_seq_inv in Hd as (s1 & s2 & -> & H1 & _).
    apply matches_seq_inv in H1 as (s3 & s4 & -> & H3 & _).
    apply matches_seq_inv in H3 as (lab & d & -> & _ & Hdot).
    apply matches_class_inv in Hdot as (c & -> & Hc).
    apply one_of_dot in Hc as ->.
    exists lab, (s4 ++ s2). by rewrite <- !app_assoc.
  - right. by apply matches_lit_ci.
  - left. unfold ipv4 in Hip.
    apply matches_seq_inv in Hip as (o & s2 & -> & _ & H2).
    apply matches_seq_inv in H2 as (d & s3 & -> & Hdot & _).
    apply matches_class_inv in Hdot as (c & -> & Hc).
    apply one_of_dot in Hc as ->.
    by exists o, s3.
Qed.

Lemma url_pattern_nonspace : classes_within nonspace url_pattern = true.
Proof. vm_compute. reflexivity. Qed.

Lemma sanitize_url_scheme (url : string) :
  String.prefix "http://" (sanitize_url url) = true
  ∨ String.prefix "https://" (sanitize_url url) = true.
Proof.
  assert (String.prefix "https://" ("https://" +:+ url) = true) as Hnew
    by (apply prefix_append; by exists url).
  unfold sanitize_url.
  destruct (String.prefix "http://" url || String.prefix "https://" url)
    eqn:Hscheme; cbn [negb].
  - apply orb_true_iff in Hscheme. auto.
  - auto.
Qed.

(** X2: [sanitize_url] returns its argument as it is when the argument
    begins with [http://] or with [https://] (in lower case), and
    [https://] followed by its argument in every other case.  What it
    returns begins with one of the two schemes, and applying it again
    changes nothing. *)
Theorem sanitize_url_spec (url : string) :
  (String.prefix "http://" url = true ∨ String.prefix "https://" url = true →
   sanitize_url url = url)
  ∧ (String.prefix "http://" url = false →
     String.prefix "https://" url = false →
     sanitize_url url = "https://" +:+ url)
  ∧ (String.prefix "http://" (sanitize_url url) = true
     ∨ String.prefix "https://" (sanitize_url url) = true)
  ∧ sanitize_url (sanitize_url url) = sanitize_url url.
Proof.
  assert (String.prefix "https://" ("https://" +:+ url) = true) as Hnew
    by (apply prefix_append; by exists url).
  unfold sanitize_url.
  destruct (String.prefix "http://" url) eqn:Hhttp;
    destruct (String.prefix "https://" url) eqn:Hhttps; cbn [orb negb];
    rewrite ?Hhttp, ?Hhttps, ?Hnew, ?orb_true_r; cbn [orb negb];
    (split; [intros [?|?]; done|]); (split; [done|]); auto.
Qed.

(** X3: Among the strings of code points below 256, every string that
    [is_valid_url] accepts is [http] or [https] in either case, [://],
    and a rest that holds a dot or begins with [localhost]; it holds no
    white space, except that one newline may follow it. *)
Theorem is_valid_url_shape (url : string) :
  is_valid_url url = true →
  ∃ scheme rest nl,
    url = scheme +:+ "://" +:+ rest +:+ nl
    ∧ (eq_ci_string "http" scheme = true ∨ eq_ci_string "https" scheme = true)
    ∧ ((∃ a b, rest = a +:+ "." +:+ b)
       ∨ (∃ l b, rest = l +:+ b ∧ eq_ci_string "localhost" l = true))
    ∧ Forall (λ c, space c = false)
             (list_ascii_of_string (scheme +:+ "://" +:+ rest))
    ∧ (nl = "" ∨ nl = String (ascii_of_nat 10) "").
Proof.
  unfold is_valid_url. destruct (String.eqb url ""); [done|].
  intros Hm. apply match_anchored_spec in Hm as (v & nl & Hurl & Hv & Hnl).
  pose proof (classes_within_sound _ _ _ url_pattern_nonspace Hv) as Hns.
  apply string_split in Hurl.
  unfold url_pattern in Hv.
  apply matches_seq_inv in Hv as (s1 & v1 & -> & Hhttp & Hv).
  apply matches_seq_inv in Hv as (s2 & v2 & -> & Hs & Hv).
  apply matches_seq_inv in Hv as (s3 & v3 & -> & Hsep & Hv).
  apply matches_seq_inv in Hv as (h & v4 & -> & Hhost & _).
  apply matches_lit_ci in Hhttp, Hsep.
  apply eq_ci_string_separator in Hsep.
  assert (string_of_list_ascii (s1 ++ s2 ++ s3 ++ h ++ v4)
          = string_of_list_ascii (s1 ++ s2) +:+ "://"
            +:+ string_of_list_ascii (h ++ v4)) as Hv.
  { rewrite !string_of_app, Hsep. by rewrite !append_assoc. }
  exists (string_of_list_ascii (s1 ++ s2)), (string_of_list_ascii (h ++ v4)),
    (string_of_list_ascii nl).
  split; [|split; [|split; [|split]]].
  - rewrite Hurl, Hv. by rewrite !append_assoc.
  - rewrite string_of_app. apply matches_opt_inv in Hs as [->|Hs].
    + left. by rewrite append_nil_r.
    + right. apply matches_class_inv in Hs as (c & -> & Hc).
      apply (eq_ci_string_app "http" "s"); [done|]. simpl. by rewrite Hc.
  - rewrite string_of_app.
    destruct (matches_host h Hhost) as [(a & b & ->)|Hl].
    + left. exists (string_of_list_ascii a), (string_of_list_ascii (b ++ v4)).
      change ("."%char :: b) with (["."%char] ++ b).
      rewrite !string_of_app. by rewrite !append_assoc.
    + right. by exists (string_of_list_ascii h), (string_of_list_ascii v4).
  - change (string_of_list_ascii (s1 ++ s2) +:+ "://"
            +:+ string_of_list_ascii (h ++ v4))
      with (string_of_list_ascii (s1 ++ s2)
            +:+ ("://" +:+ string_of_list_ascii (h ++ v4))).
    rewrite <- Hv, list_ascii_of_string_of_list_ascii.
    eapply Forall_impl; [exact Hns|].
    intros c Hc. unfold nonspace in Hc. by apply negb_true_iff in Hc.
  - destruct Hnl as [->|(c & -> & Hc)]; [by left|right].
    simpl. f_equal. unfold is_newline in Hc. apply Nat.eqb_eq in Hc.
    by rewrite <- Hc, ascii_nat_embedding.
Qed.

Lemma is_valid_url_shape_witness :
  ∃ scheme rest nl,
    "https://www.example.com/very/long/url"
    = scheme +:+ "://" +:+ rest +:+ nl
    ∧ (eq_ci_string "http" scheme = true ∨ eq_ci_string "https" scheme = true)
    ∧ ((∃ a b, rest = a +:+ "." +:+ b)
       ∨ (∃ l b, rest = l +:+ b ∧ eq_ci_string "localhost" l = true))
    ∧ Forall (λ c, space c = false)
             (list_ascii_of_string (scheme +:+ "://" +:+ rest))
    ∧ (nl = "" ∨ nl = String (ascii_of_nat 10) "").
Proof. apply is_valid_url_shape. vm_compute. reflexivity. Defined.

Example is_valid_url_examples :
  is_valid_url "https://www.example.com/very/long/url" = true
  ∧ is_valid_url "http://localhost:5000/abc" = true
  ∧ is_valid_url "http://127.0.0.1" = true
  ∧ is_valid_url "HTTPS://Example.COM" = true
  ∧ is_valid_url (sanitize_url "www.example.com/no-scheme") = true
  ∧ is_valid_url (sanitize_url "not-a-url") = false
  ∧ is_valid_url "" = false
  ∧ is_valid_url "ftp://example.com" = false
  ∧ is_valid_url (sanitize_url "HTTP://example.com") = false.
Proof. repeat split; vm_compute; reflexivity. Qed.

Section ShortCode.
Context {G : Type} `{RandomSource G}.

(** X4: [generate_short_code(length)] returns [length] characters of
    [[A-Za-z0-9]] for a positive [length]; for a [length] of zero or
    less it returns the empty string and leaves the generator alone. *)
Theorem generate_short_code_length (length : Z) (g : G) :
  ∃ code g',
    generate_short_code length g = Some (code, g')
    ∧ Z.of_nat (String.length code) = Z.max 0 length
    ∧ Forall (λ c, alnum c = true) (list_ascii_of_string code)
    ∧ (length ≤ 0 → code = "" ∧ g' = g).
Proof.
  unfold generate_short_code.
  destruct (UtilsFacts.join_choices_spec characters (Z.to_nat length) g)
    as (code & g' & Hcode & Hlen & Hall).
  { rewrite UtilsFacts.characters_length. lia. }
  exists code, g'. split; [done|]. split; [lia|]. split.
  - eapply Forall_impl; [exact Hall|].
    intros c Hc. by apply UtilsFacts.characters_alnum.
  - intros Hneg. replace (Z.to_nat length) with 0%nat in Hcode by lia.
    simpl in Hcode. by injection Hcode as <- <-.
Qed.

End ShortCode.

End UrlFacts.

(** ** What SQLite is given *)

Module SqliteFacts.
Import Py Unicode Sqlite.


Lemma encode_encodable (s : list N) :
  encodable s = true → encode s = Return (flat_map utf8 s).
Proof. intros Hs. unfold encode. by rewrite Hs. Qed.

Lemma encode_surrogate (s : list N) :
  encodable s = false → encode s = Raise UnicodeEncodeError.
Proof. intros Hs. unfold encode. by rewrite Hs. Qed.

Lemma bind_int_in_range (i : Z) :
  -9223372036854775808 ≤ i ≤ 9223372036854775807 → bind_int i = Return i.
Proof.
  intros [Hlo Hhi]. unfold bind_int.
  apply Z.leb_le in Hlo, Hhi. by rewrite Hlo, Hhi.
Qed.

Lemma bind_int_Return (i j : Z) :
  bind_int i = Return j →
  j = i ∧ -9223372036854775808 ≤ i ≤ 9223372036854775807.
Proof.
  unfold bind_int.
  destruct (-9223372036854775808 <=? i) eqn:Hlo;
    destruct (i <=? 9223372036854775807) eqn:Hhi; simpl; try done.
  intros [= <-]. apply Z.leb_le in Hlo, Hhi. done.
Qed.

Lemma bind_int_cases (i : Z) :
  bind_int i = Return i ∨ bind_int i = Raise OverflowError.
Proof. unfold bind_int. destruct (_ && _); auto. Qed.

Lemma bind_text_binds (s : list N) :
  binds s = true → bind_text s = Return s.
Proof.
  unfold binds, bind_text, encode. intros Hs.
  apply andb_true_iff in Hs as [-> Hlen]. simpl.
  apply Z.leb_le in Hlen. unfold int_max.
  rewrite (proj2 (Z.ltb_ge _ _)) by (unfold max_length in Hlen; lia).
  by rewrite (proj2 (Z.ltb_ge _ _)).
Qed.

Lemma bind_text_Return (s t : list N) :
  bind_text s = Return t → t = s ∧ binds s = true.
Proof.
  unfold binds, bind_text, encode. destruct (encodable s); simpl; [|done].
  destruct (int_max <? _); [done|].
  destruct (max_length <? _) eqn:Hlen; [done|].
  intros [= <-]. split; [done|]. apply Z.ltb_ge in Hlen. by apply Z.leb_le.
Qed.

Lemma bind_text_cases (s : list N) :
  bind_text s = Return s ∨ ∃ e, bind_text s = Raise e.
Proof.
  unfold bind_text, encode. destruct (encodable s); simpl; [|eauto].
  destruct (int_max <? _); [eauto|]. destruct (max_length <? _); eauto.
Qed.

Lemma binds_encodable (s : list N) : binds s = true → encodable s = true.
Proof. unfold binds. by intros [? _]%andb_true_iff. Qed.

(** [binds] holds of the strings that [bind_text] takes. *)
Lemma binds_spec (s : list N) : bind_text s = Return s ↔ binds s = true.
Proof.
  split; [|apply bind_text_binds]. intros Hs.
  by apply bind_text_Return in Hs as [_ ?].
Qed.

End SqliteFacts.

(** ** User management *)

Module AppRefactoredFacts.
Import Py Unicode AppRefactored.

Section Lists.
Context {A : Type} (P : A → Prop) `{∀ x, Decision (P x)}.

Lemma filter_none (l : list A) : Forall (λ x, ¬ P x) l → filter P l = [].
Proof.
  induction 1 as [|x l Hx _ IH]; [done|].
  by rewrite filter_cons_False.
Qed.


Lemma rowcount_positive (l : list A) :
  (0 <? Z.of_nat (length (filter P l))) = true ↔ ∃ x, x ∈ l ∧ P x.
Proof.
  rewrite Z.ltb_lt. split.
  - destruct (filter P l) as [|x l'] eqn:E; simpl; [lia|]. intros _.
    assert (x ∈ filter P l) as Hx by (rewrite E; apply list_elem_of_here).
    apply list_elem_of_filter in Hx as [? ?]. eauto.
  - intros (x & Hx & HP).
    assert (x ∈ filter P l) as Hin by (by apply list_elem_of_filter).
    destruct (filter P l); [by apply not_elem_of_nil in Hin|simpl; lia].
Qed.

End Lists.

(** *** The payload validator *)

Import UserValidator.

Example validate_email_examples :
  validate_email (u "user@example.com") = true
  ∧ validate_email (u "bad") = false
  ∧ validate_email (u "a@b.c") = false
  ∧ validate_email (u "a b@example.com") = false
  ∧ validate_email (u "first.last+tag@mail.example.org") = true
  ∧ validate_email (u "user@example.com" ++ [10%N]) = true
  ∧ validate_email (u "user@example.com" ++ u " ") = false
  ∧ validate_email (u "us" ++ [233%N] ++ u "r@example.com") = false.
Proof. repeat split; vm_compute; reflexivity. Qed.

Example validate_name_examples :
  validate_name (u "Al") = true ∧ validate_name (u "  A  ") = false
  ∧ validate_name ([12288%N] ++ u "A" ++ [8239%N]) = false
  ∧ validate_password (u "secure123") = true
  ∧ validate_password (u "12345") = false
  ∧ validate_password (55296%N :: u "aaaaa") = true.
Proof. repeat split; vm_compute; reflexivity. Qed.

Example like_examples :
  Sqlite.like (u "%o%") (u "Bo") = Return true
  ∧ Sqlite.like (u "%AL%") (u "Al") = Return true
  ∧ Sqlite.like (u "%_l%") (u "Al") = Return true
  ∧ Sqlite.like (u "%x%") (u "Al") = Return false
  ∧ Sqlite.like (u "%bo%") (u "A" ++ [0%N] ++ u "Bob") = Return false
  ∧ Sqlite.like (u "%" ++ [0%N] ++ u "%") (u "Bo") = Return true
  ∧ Sqlite.like (u "%" ++ [233%N] ++ u "%") ([201%N] ++ u "mile")
    = Return false.
Proof. repeat split; vm_compute; reflexivity. Qed.

(** Where [email] is a key of the payload, [validate_user_data] returns
    what the specification describes. *)
Lemma validate_user_data_with_email data required_fields :
  is_Some (data !! u "email") →
  validate_user_data data required_fields
  = Return (validate_user_payload_spec data required_fields).
Proof.
  intros [email Hemail].
  unfold validate_user_data, validate_user_payload_spec.
  destruct (first_missing data required_fields); [done|].
  rewrite Hemail. simpl.
  destruct (validate_email email); simpl; [|done].
  destruct (data !! u "password") as [password|]; simpl;
    [destruct (validate_password password); simpl; [|done]|];
    (destruct (data !! u "name") as [name|]; simpl;
       [by destruct (validate_name name)|done]).
Qed.

Lemma first_missing_required data required_fields field :
  first_missing data required_fields = None →
  field ∈ required_fields → is_Some (data !! field).
Proof.
  induction required_fields as [|f rest IH]; simpl; intros Hnone Hin.
  - by apply not_elem_of_nil in Hin.
  - destruct (data !! f) as [v|] eqn:Hf; [|done].
    destruct (bool_decide (v = [])); [done|].
    apply elem_of_cons in Hin as [->|Hin]; [by rewrite Hf|by apply IH].
Qed.

(** C4 (the code departs from the claim): with a payload that has no
    [email] key and a list of required fields that does not ask for it,
    the required-field scan passes and the specification's validator
    accepts the payload ([name] is present and valid, the other two
    fields are absent), while [validate_user_data] reads [data['email']]
    unguarded and raises [KeyError] instead of returning a result.  The
    [password] and [name] checks of the same function are guarded by
    [in data]. *)
Theorem validate_user_data_email_absent :
  validate_user_data {[u "name" := u "Al"]} [] = Raise (KeyError (u "email"))
  ∧ validate_user_data {[u "name" := u "Al"]} [u "name"]
    = Raise (KeyError (u "email"))
  ∧ validate_user_payload_spec {[u "name" := u "Al"]} [] = (true, u "")
  ∧ validate_user_payload_spec {[u "name" := u "Al"]} [u "name"]
    = (true, u "").
Proof. repeat split; vm_compute; reflexivity. Qed.

(** X1: Both handlers that call [validate_user_data] require [email]; on
    such calls the function returns what the specification describes,
    in the order missing field, email, password, name. *)
Theorem validate_user_data_email_required data required_fields :
  u "email" ∈ required_fields →
  validate_user_data data required_fields
  = Return (validate_user_payload_spec data required_fields).
Proof.
  intros Hreq. unfold validate_user_data, validate_user_payload_spec.
  destruct (first_missing data required_fields) as [field|] eqn:Hmiss;
    [done|].
  pose proof (first_missing_required _ _ _ Hmiss Hreq) as Hemail.
  pose proof (validate_user_data_with_email data required_fields Hemail)
    as Heq.
  unfold validate_user_data, validate_user_payload_spec in Heq.
  by rewrite Hmiss in Heq.
Qed.

Lemma validate_user_data_email_required_witness :
  validate_user_data
    {[u "name" := u "A"; u "email" := u "bad";
      u "password" := u "secure123"]}
    [u "name"; u "email"; u "password"]
  = Return (false, u "Invalid email format").
Proof.
  rewrite validate_user_data_email_required.
  - vm_compute. reflexivity.
  - repeat constructor.
Defined.

(** *** The user service *)

Section Service.
Context `{Backend}.

Lemma create_user_returns (name email password : list N)
    (db : list Users.row) :
  encodable password = true →
  Sqlite.binds name = true → Sqlite.binds email = true →
  stores (Users.mk (new_id db) name email
            (sha256_hexdigest (flat_map utf8 password))) = true →
  UserService.create_user name email password db
  = Return (head (Users.id <$> filter (λ r, Users.email r = email)
                    (db ++ [Users.mk (new_id db) name email
                              (sha256_hexdigest (flat_map utf8 password))])),
            db ++ [Users.mk (new_id db) name email
                     (sha256_hexdigest (flat_map utf8 password))]).
Proof.
  intros Hp Hn He Hrow.
  unfold UserService.create_user, UserService.hash_password.
  rewrite (SqliteFacts.encode_encodable _ Hp). simpl.
  rewrite (SqliteFacts.bind_text_binds _ Hn). simpl.
  rewrite (SqliteFacts.bind_text_binds _ He). simpl.
  rewrite Hrow. simpl. by rewrite (SqliteFacts.bind_text_binds _ He).
Qed.

(** When [create_user] returns, it has appended one row, and its
    arguments were such that the call could go through. *)
Lemma create_user_Return (name email password : list N)
    (db db' : list Users.row) (user_id : option Z) :
  UserService.create_user name email password db = Return (user_id, db') →
  encodable password = true
  ∧ Sqlite.binds name = true ∧ Sqlite.binds email = true
  ∧ stores (Users.mk (new_id db) name email
              (sha256_hexdigest (flat_map utf8 password))) = true
  ∧ db' = db ++ [Users.mk (new_id db) name email
                   (sha256_hexdigest (flat_map utf8 password))].
Proof.
  unfold UserService.create_user, UserService.hash_password, encode.
  destruct (encodable password); simpl; [|done].
  destruct (Sqlite.bind_text name) as [name'|] eqn:Hn; simpl; [|done].
  apply SqliteFacts.bind_text_Return in Hn as [-> Hn].
  destruct (Sqlite.bind_text email) as [email'|] eqn:He; simpl; [|done].
  pose proof He as He'.
  apply SqliteFacts.bind_text_Return in He' as [-> He'].
  destruct (stores _) eqn:Hrow; simpl; [|done].
  rewrite He. simpl. intros [= _ <-]. done.
Qed.

Lemma create_user_fresh (name email password : list N)
    (db : list Users.row) :
  encodable password = true →
  Sqlite.binds name = true → Sqlite.binds email = true →
  stores (Users.mk (new_id db) name email
            (sha256_hexdigest (flat_map utf8 password))) = true →
  Forall (λ r, Users.email r ≠ email) db →
  UserService.create_user name email password db
  = Return (Some (new_id db),
            db ++ [Users.mk (new_id db) name email
                     (sha256_hexdigest (flat_map utf8 password))]).
Proof.
  intros Hp Hn He Hrow Hfresh.
  rewrite create_user_returns by done. do 2 f_equal.
  rewrite filter_app, filter_none.
  - by rewrite filter_cons_True.
  - eapply Forall_impl; [exact Hfresh|]. intros r Hr. by intros ?.
Qed.

(** C5 (amended): for a name, an email and a password that hold no lone
    surrogate, a name and an email of at most [SQLITE_MAX_LENGTH] bytes,
    and a row that the table takes: when no row of the table carries
    [email],
    [create_user name email password] hashes the password, appends
    exactly one row, made of the key the backing store assigns, [name],
    [email] and the digest, and returns that key. *)
Theorem create_user_spec (name email password : list N)
    (db : list Users.row) :
  encodable password = true →
  Sqlite.binds name = true → Sqlite.binds email = true →
  stores (Users.mk (new_id db) name email
            (sha256_hexdigest (flat_map utf8 password))) = true →
  Forall (λ r, Users.email r ≠ email) db →
  UserService.hash_password password
  = Return (sha256_hexdigest (flat_map utf8 password))
  ∧ UserService.create_user name email password db
    = Return (Some (new_id db),
              db ++ [Users.mk (new_id db) name email
                       (sha256_hexdigest (flat_map utf8 password))]).
Proof.
  intros Hp Hn He Hrow Hfresh. split.
  - unfold UserService.hash_password.
    by rewrite (SqliteFacts.encode_encodable _ Hp).
  - by apply create_user_fresh.
Qed.

End Service.

Lemma create_user_spec_witness :
  UserService.create_user (H := counting_backend)
    (u "Bo") (u "bo@x.com") (u "secret1")
    [Users.mk 1 (u "Al") (u "al@x.com") (u "sha256:hunter22")]
  = Return (Some 2,
            [Users.mk 1 (u "Al") (u "al@x.com") (u "sha256:hunter22");
             Users.mk 2 (u "Bo") (u "bo@x.com") (u "sha256:secret1")]).
Proof.
  apply (create_user_spec (H := counting_backend)
           (u "Bo") (u "bo@x.com") (u "secret1")
           [Users.mk 1 (u "Al") (u "al@x.com") (u "sha256:hunter22")]);
    [reflexivity..|].
  repeat constructor. discriminate.
Defined.

(** C5 (as stated it fails): a password that holds a lone surrogate, as
    [json.loads] delivers it from the body ["\ud800aaaaa"], passes
    [validate_password]; [password.encode()] raises
    [UnicodeEncodeError], so that [create_user] returns no identifier
    and inserts no row, although no row carries the email. *)
Lemma create_user_surrogate_password :
  let db := [Users.mk 1 (u "Al") (u "al@x.com") (u "sha256:hunter22")] in
  let password := 55296%N :: u "aaaaa" in
  Forall (λ r, Users.email r ≠ u "bo@x.com") db
  ∧ validate_password password = true
  ∧ UserService.hash_password (H := counting_backend) password
    = Raise UnicodeEncodeError
  ∧ UserService.create_user (H := counting_backend)
      (u "Bo") (u "bo@x.com") password db
    = Raise UnicodeEncodeError.
Proof.
  intros db password. split; [|split; [|split]]; try reflexivity.
  repeat constructor. discriminate.
Qed.









(** *** Reading without the password column *)

Section Public.
Context {B : Type} (P : Users.row → Prop) `{∀ r, Decision (P r)}
  (f : Users.row → B).
Hypothesis P_public : ∀ r1 r2, same_public r1 r2 → (P r1 ↔ P r2).
Hypothesis f_public : ∀ r1 r2, same_public r1 r2 → f r1 = f r2.

Lemma select_public db1 db2 :
  Forall2 same_public db1 db2 →
  f <$> filter P db1 = f <$> filter P db2.
Proof.
  induction 1 as [|r1 r2 db1 db2 Hr _ IH]; [done|].
  rewrite !filter_cons.
  destruct (decide (P r1)) as [H1|H1], (decide (P r2)) as [H2|H2].
  - rewrite !fmap_cons, IH. f_equal. by apply f_public.
  - by apply (P_public _ _ Hr) in H1.
  - by apply (P_public _ _ Hr) in H2.
  - done.
Qed.

End Public.

Lemma public_columns r1 r2 :
  same_public r1 r2 → UserService.public r1 = UserService.public r2.
Proof. unfold UserService.public. by intros (-> & -> & ->). Qed.

(** The rows that [search_users] selects, as tuples. *)
Lemma select_like_cons pattern r db :
  (rows ← Sqlite.select (λ r, Sqlite.like pattern (Users.name r)) (r :: db);
   Return (UserService.public <$> (rows : list Users.row)))
  = (b ← Sqlite.like pattern (Users.name r);
     users ← (rows ← Sqlite.select
                       (λ r, Sqlite.like pattern (Users.name r)) db;
              Return (UserService.public <$> (rows : list Users.row)));
     Return (if (b : bool) then UserService.public r :: users else users)).
Proof.
  simpl. destruct (Sqlite.like pattern (Users.name r)) as [b|e]; simpl; [|done].
  destruct (Sqlite.select _ db) as [rows|e]; simpl; [|done].
  by destruct b.
Qed.

Lemma select_like_public pattern db1 db2 :
  Forall2 same_public db1 db2 →
  (rows ← Sqlite.select (λ r, Sqlite.like pattern (Users.name r)) db1;
   Return (UserService.public <$> (rows : list Users.row)))
  = (rows ← Sqlite.select (λ r, Sqlite.like pattern (Users.name r)) db2;
     Return (UserService.public <$> (rows : list Users.row))).
Proof.
  induction 1 as [|r1 r2 db1 db2 Hr _ IH]; [done|].
  rewrite !select_like_cons, IH, (public_columns _ _ Hr).
  destruct Hr as (_ & -> & _). done.
Qed.

(** C7: two databases that differ in the [password] column only give
    the same results of [get_all_users], [get_user_by_id] and
    [search_users], which are tuples of id, name and email, and hence
    the same responses of the three read endpoints. *)
Theorem reads_ignore_password (db1 db2 : list Users.row) :
  Forall2 same_public db1 db2 →
  UserService.get_all_users db1 = UserService.get_all_users db2
  ∧ (∀ user_id, UserService.get_user_by_id user_id db1
                = UserService.get_user_by_id user_id db2)
  ∧ (∀ name, UserService.search_users name db1
             = UserService.search_users name db2)
  ∧ get_all_users db1 = get_all_users db2
  ∧ (∀ user_id, get_user user_id db1 = get_user user_id db2)
  ∧ (∀ name, search_users name db1 = search_users name db2).
Proof.
  intros Hsame.
  assert (UserService.get_all_users db1 = UserService.get_all_users db2) as Hall.
  { unfold UserService.get_all_users.
    induction Hsame as [|r1 r2 l1 l2 Hr _ IH]; [done|].
    rewrite !fmap_cons, IH. f_equal. by apply public_columns. }
  assert (∀ user_id, UserService.get_user_by_id user_id db1
                     = UserService.get_user_by_id user_id db2) as Hget.
  { intros user_id. unfold UserService.get_user_by_id.
    destruct (Sqlite.bind_int user_id) as [i|e]; simpl; [|done].
    do 2 f_equal.
    apply select_public; [|apply public_columns|done].
    intros r1 r2 (-> & _). done. }
  assert (∀ name, UserService.search_users name db1
                  = UserService.search_users name db2) as Hsearch.
  { intros name. unfold UserService.search_users.
    destruct (Sqlite.bind_text _) as [pattern|e]; simpl; [|done].
    by apply select_like_public. }
  split; [done|]. split; [done|]. split; [done|].
  split; [|split].
  - unfold get_all_users. by rewrite Hall.
  - intros user_id. unfold get_user. by rewrite Hget.
  - intros [name|]; [|done]. unfold search_users. by rewrite Hsearch.
Qed.

Lemma reads_ignore_password_witness :
  let db1 := [Users.mk 1 (u "Al") (u "al@x.com") (u "h1");
              Users.mk 2 (u "Bo") (u "bo@x.com") (u "h2")] in
  let db2 := [Users.mk 1 (u "Al") (u "al@x.com") (u "other");
              Users.mk 2 (u "Bo") (u "bo@x.com") (u "")] in
  get_all_users db1 = get_all_users db2
  ∧ get_user 2 db1 = get_user 2 db2
  ∧ search_users (Some (u "o")) db1 = search_users (Some (u "o")) db2.
Proof.
  intros db1 db2.
  destruct (reads_ignore_password db1 db2) as (_ & _ & _ & H1 & H2 & H3).
  - repeat constructor.
  - split; [exact H1|]. split; [apply H2|apply H3].
Defined.

End AppRefactoredFacts.

(** ** Validators and the user service *)

Module UserFacts.
Import Re ReFacts Py Unicode AppRefactored AppRefactored.UserValidator.

Lemma one_of_at c : one_of "@" c = true → c = 64%N.
Proof.
  unfold one_of. intros Hc. apply bool_decide_eq_true in Hc.
  by apply list_elem_of_singleton in Hc.
Qed.

Lemma one_of_point c : one_of "." c = true → c = 46%N.
Proof.
  unfold one_of. intros Hc. apply bool_decide_eq_true in Hc.
  by apply list_elem_of_singleton in Hc.
Qed.

(** X5: [validate_email] accepts exactly the strings [local@domain.tld],
    possibly followed by one newline, where [local] is a non-empty run
    of letters, digits and [._%+-], [domain] a non-empty run of letters,
    digits and [.-], and [tld] a run of two letters or more. *)
Theorem validate_email_shape (email : list N) :
  validate_email email = true
  ↔ ∃ local domain tld nl,
      email = local ++ u "@" ++ domain ++ u "." ++ tld ++ nl
      ∧ local ≠ []
      ∧ Forall (λ c, letter_digit c || one_of "._%+-" c = true) local
      ∧ domain ≠ []
      ∧ Forall (λ c, letter_digit c || one_of ".-" c = true) domain
      ∧ (2 ≤ length tld)%nat
      ∧ Forall (λ c, letter c = true) tld
      ∧ (nl = [] ∨ nl = [10%N]).
Proof.
  unfold validate_email. rewrite match_anchored_spec. unfold email_pattern.
  split.
  - intros (v & nl & -> & Hv & Hnl).
    apply matches_seq_inv in Hv as (local & v1 & -> & Hlocal & Hv).
    apply matches_seq_inv in Hv as (at_ & v2 & -> & Hat & Hv).
    apply matches_seq_inv in Hv as (domain & v3 & -> & Hdomain & Hv).
    apply matches_seq_inv in Hv as (pt & tld & -> & Hpt & Htld).
    apply matches_class_inv in Hat as (c & -> & Hc). apply one_of_at in Hc as ->.
    apply matches_class_inv in Hpt as (c & -> & Hc).
    apply one_of_point in Hc as ->.
    apply matches_plus_class in Hlocal as [? ?], Hdomain as [? ?].
    apply matches_atleast2_class in Htld as [? ?].
    exists local, domain, tld, nl.
    split; [by rewrite <- !app_assoc|]. do 6 (split; [done|]).
    destruct Hnl as [->|(c & -> & Hc)]; [by left|right].
    unfold is_newline in Hc. by apply N.eqb_eq in Hc as ->.
  - intros (local & domain & tld & nl & -> & ? & ? & ? & ? & ? & ? & Hnl).
    exists (local ++ u "@" ++ domain ++ u "." ++ tld), nl.
    split; [by rewrite <- !app_assoc|]. split.
    + constructor; [by apply matches_plus_class|].
      constructor; [by constructor|].
      constructor; [by apply matches_plus_class|].
      constructor; [by constructor|].
      by apply matches_atleast2_class.
    + destruct Hnl as [->| ->]; [by left|right]. by exists 10%N.
Qed.

(** *** The user service *)

Section Service.
Context `{Backend}.

Lemma forallb_stores (updated : Users.row → Users.row) (user_id : Z)
    (db : list Users.row) :
  (∀ r, r ∈ db → Users.id r = user_id → stores (updated r) = true) →
  forallb stores (updated <$> filter (λ r, Users.id r = user_id) db) = true.
Proof.
  intros Hall. apply forallb_forall. intros r' Hr'.
  apply list_elem_of_In, list_elem_of_fmap in Hr' as (r & -> & Hr).
  apply list_elem_of_filter in Hr as [Hid Hr]. by apply Hall.
Qed.

Lemma update_user_returns (user_id : Z) (name email : list N)
    (db : list Users.row) :
  -9223372036854775808 ≤ user_id ≤ 9223372036854775807 →
  Sqlite.binds name = true → Sqlite.binds email = true →
  (∀ r, r ∈ db → Users.id r = user_id →
        stores (Users.mk (Users.id r) name email (Users.password r)) = true) →
  UserService.update_user user_id name email db
  = Return (0 <? Z.of_nat (length (filter (λ r, Users.id r = user_id) db)),
            (λ r, if decide (Users.id r = user_id)
                  then Users.mk (Users.id r) name email (Users.password r)
                  else r) <$> db).
Proof.
  intros Hid Hn He Hrows. unfold UserService.update_user.
  rewrite (SqliteFacts.bind_text_binds _ Hn). simpl.
  rewrite (SqliteFacts.bind_text_binds _ He). simpl.
  rewrite (SqliteFacts.bind_int_in_range _ Hid). simpl.
  by rewrite forallb_stores.
Qed.


(** X6: for a name and an email that can be bound (no lone surrogate,
    at most [SQLITE_MAX_LENGTH] bytes): with a user id within the signed
    integers of 64 bits, and where the table takes the rows as they are
    to become, [update_user] returns [True] exactly when a row with the
    id exists; it keeps the number and the order of the rows, their ids
    and their passwords; the rows with the id get the name and the
    email, and every other row is left as it is.  With a user id beyond
    64 bits it raises [OverflowError]. *)
Theorem update_user_spec (user_id : Z) (name email : list N)
    (db : list Users.row) :
  Sqlite.binds name = true → Sqlite.binds email = true →
  (-9223372036854775808 ≤ user_id ≤ 9223372036854775807 →
   (∀ r, r ∈ db → Users.id r = user_id →
         stores (Users.mk (Users.id r) name email (Users.password r)) = true) →
   ∃ ok db',
     UserService.update_user user_id name email db = Return (ok, db')
     ∧ (ok = true ↔ ∃ r, r ∈ db ∧ Users.id r = user_id)
     ∧ Users.id <$> db' = Users.id <$> db
     ∧ Users.password <$> db' = Users.password <$> db
     ∧ (∀ r, r ∈ db → Users.id r ≠ user_id → r ∈ db')
     ∧ (∀ r', r' ∈ db' → Users.id r' = user_id →
          Users.name r' = name ∧ Users.email r' = email)
     ∧ (ok = false → db' = db))
  ∧ (¬ (-9223372036854775808 ≤ user_id ≤ 9223372036854775807) →
     UserService.update_user user_id name email db = Raise OverflowError).
Proof.
  intros Hn He. split.
  - intros Hid Hrows.
    pose proof (AppRefactoredFacts.rowcount_positive
                  (λ r, Users.id r = user_id) db) as Hcount.
    eexists _, _. split; [by apply update_user_returns|].
    split; [exact Hcount|].
    split; [|split; [|split; [|split]]].
    + rewrite <- list_fmap_compose. apply list_fmap_ext.
      intros i r _. simpl. by destruct (decide (Users.id r = user_id)).
    + rewrite <- list_fmap_compose. apply list_fmap_ext.
      intros i r _. simpl. by destruct (decide (Users.id r = user_id)).
    + intros r Hr Hne. apply list_elem_of_fmap. exists r.
      split; [|done]. by rewrite decide_False.
    + intros r' Hr' Hrid. apply list_elem_of_fmap in Hr' as (r & -> & Hr).
      destruct (decide (Users.id r = user_id)); [done|].
      by simpl in Hrid.
    + intros Hno. rewrite <- (list_fmap_id db) at 2. apply list_fmap_ext.
      intros i r Hr.
      destruct (decide (Users.id r = user_id)) as [Hrid|]; [|done].
      assert ((0 <? Z.of_nat (length (filter (λ r, Users.id r = user_id) db)))
              = true) as Hyes.
      { apply Hcount. exists r. split; [|done].
        by eapply list_elem_of_lookup_2. }
      congruence.
  - intros Hid. unfold UserService.update_user.
    rewrite (SqliteFacts.bind_text_binds _ Hn). simpl.
    rewrite (SqliteFacts.bind_text_binds _ He). simpl.
    destruct (SqliteFacts.bind_int_cases user_id) as [Hret|Hraise].
    + apply SqliteFacts.bind_int_Return in Hret as [_ ?]. done.
    + by rewrite Hraise.
Qed.

Lemma authenticate_appended (name email password' hash : list N)
    (db : list Users.row) :
  Sqlite.binds email = true → encodable password' = true →
  Forall (λ r, Users.email r ≠ email) db →
  UserService.authenticate_user email password'
    (db ++ [Users.mk (new_id db) name email hash])
  = Return (if decide (sha256_hexdigest (flat_map utf8 password') = hash)
            then Some (new_id db) else None).
Proof.
  intros He Hp Hfresh. unfold UserService.authenticate_user,
    UserService.hash_password.
  rewrite (SqliteFacts.encode_encodable _ Hp). simpl.
  rewrite (SqliteFacts.bind_text_binds _ He). simpl. f_equal.
  rewrite filter_app, (AppRefactoredFacts.filter_none _ db).
  - destruct (decide (sha256_hexdigest (flat_map utf8 password') = hash))
      as [Heq|Hne].
    + by rewrite filter_cons_True.
    + rewrite filter_cons_False; [done|]. simpl. by intros [_ ?].
  - eapply Forall_impl; [exact Hfresh|]. intros r Hr [? _]. done.
Qed.

Lemma authenticate_surrogate (email password' : list N)
    (db : list Users.row) :
  encodable password' = false →
  UserService.authenticate_user email password' db = Raise UnicodeEncodeError.
Proof.
  intros Hp. unfold UserService.authenticate_user, UserService.hash_password.
  by rewrite (SqliteFacts.encode_surrogate _ Hp).
Qed.

(** X7: After [create_user] has returned, with an email that no row
    carried, [authenticate_user] with that email and the password
    returns the id of the new row; with a password of another digest it
    returns [None]; and with a password that has no digest, for the lone
    surrogate it holds, it raises [UnicodeEncodeError]. *)
Theorem authenticate_after_create (name email password : list N)
    (db db' : list Users.row) (user_id : option Z) :
  UserService.create_user name email password db = Return (user_id, db') →
  Forall (λ r, Users.email r ≠ email) db →
  UserService.authenticate_user email password db' = Return (Some (new_id db))
  ∧ (∀ password', encodable password' = true →
       sha256_hexdigest (flat_map utf8 password')
       ≠ sha256_hexdigest (flat_map utf8 password) →
       UserService.authenticate_user email password' db' = Return None)
  ∧ (∀ password', encodable password' = false →
       UserService.authenticate_user email password' db'
       = Raise UnicodeEncodeError).
Proof.
  intros Hcreate Hfresh.
  apply AppRefactoredFacts.create_user_Return in Hcreate
    as (Hp & _ & He & _ & ->).
  split; [|split].
  - rewrite authenticate_appended by done. by rewrite decide_True.
  - intros password' Hp' Hdigest.
    rewrite authenticate_appended by done. by rewrite decide_False.
  - intros password' Hp'. by apply authenticate_surrogate.
Qed.

End Service.

Lemma update_user_spec_witness :
  let db := [Users.mk 1 (u "Al") (u "al@x.com") (u "h1");
             Users.mk 2 (u "Bo") (u "bo@x.com") (u "h2")] in
  (∃ ok db',
     UserService.update_user (H := counting_backend)
       2 (u "Bob") (u "bob@x.com") db = Return (ok, db')
     ∧ ok = true
     ∧ Users.mk 1 (u "Al") (u "al@x.com") (u "h1") ∈ db')
  ∧ UserService.update_user (H := counting_backend)
      9223372036854775808 (u "Bob") (u "bob@x.com") db
    = Raise OverflowError.
Proof.
  intros db.
  destruct (update_user_spec (H := counting_backend)
              2 (u "Bob") (u "bob@x.com") db) as [Hin _];
    [reflexivity|reflexivity|].
  destruct (update_user_spec (H := counting_backend)
              9223372036854775808 (u "Bob") (u "bob@x.com") db) as [_ Hout];
    [reflexivity|reflexivity|].
  split.
  - destruct Hin as (ok & db' & Heq & Hret & _ & _ & Hother & _); [lia| |].
    { intros r Hr _. unfold db in Hr.
      repeat (apply elem_of_cons in Hr as [->|Hr]; [reflexivity|]).
      by apply not_elem_of_nil in Hr. }
    exists ok, db'. split; [done|]. split.
    + apply Hret. exists (Users.mk 2 (u "Bo") (u "bo@x.com") (u "h2")).
      split; [apply list_elem_of_further, list_elem_of_here|reflexivity].
    + apply Hother; [apply list_elem_of_here|discriminate].
  - apply Hout. lia.
Defined.

Lemma authenticate_after_create_witness :
  let db := [Users.mk 1 (u "Al") (u "al@x.com") (u "sha256:hunter22")] in
  let db' := db ++ [Users.mk 2 (u "Bo") (u "bo@x.com") (u "sha256:secret1")] in
  UserService.authenticate_user (H := counting_backend)
    (u "bo@x.com") (u "secret1") db' = Return (Some 2)
  ∧ UserService.authenticate_user (H := counting_backend)
      (u "bo@x.com") (u "secret2") db' = Return None
  ∧ UserService.authenticate_user (H := counting_backend)
      (u "bo@x.com") (55296%N :: u "aaaaa") db' = Raise UnicodeEncodeError.
Proof.
  intros db db'.
  destruct (authenticate_after_create (H := counting_backend)
              (u "Bo") (u "bo@x.com") (u "secret1") db db' (Some 2))
    as (Hyes & Hno & Hraise).
  - reflexivity.
  - repeat constructor. discriminate.
  - split; [exact Hyes|]. split.
    + apply Hno; [reflexivity|discriminate].
    + apply Hraise. reflexivity.
Defined.

End UserFacts.

(** ** The handlers of the user API *)

Module UserApiFacts.
Import Py Unicode AppRefactored AppRefactored.UserValidator UserApi.

Lemma validated_required data required_fields :
  u "email" ∈ required_fields →
  validate_user_data data required_fields
  = Return (validate_user_payload_spec data required_fields).
Proof.
  intros Hreq.
  destruct (first_missing data required_fields) as [field|] eqn:Hmiss.
  - unfold validate_user_data, validate_user_payload_spec. by rewrite Hmiss.
  - rewrite AppRefactoredFacts.validate_user_data_with_email; [done|].
    by eapply AppRefactoredFacts.first_missing_required.
Qed.

Lemma validate_name_nonempty name :
  validate_name name = true → bool_decide (name = []) = false.
Proof. by destruct name. Qed.

Lemma validate_email_nonempty email :
  validate_email email = true → bool_decide (email = []) = false.
Proof. by destruct email. Qed.

Lemma validate_password_nonempty password :
  validate_password password = true → bool_decide (password = []) = false.
Proof. by destruct password. Qed.

Lemma payload_new_user data :
  (validate_user_payload_spec data [u "name"; u "email"; u "password"]).1
  = true
  ↔ ∃ name email password, valid_new_user data name email password.
Proof.
  unfold validate_user_payload_spec, valid_new_user, fails, first_missing.
  split.
  - destruct (data !! u "name") as [name|]; [|done].
    destruct (bool_decide (name = [])); [done|].
    destruct (data !! u "email") as [email|]; [|done].
    destruct (bool_decide (email = [])); [done|].
    destruct (data !! u "password") as [password|]; [|done].
    destruct (bool_decide (password = [])); [done|].
    destruct (validate_email email) eqn:He; [|done].
    destruct (validate_password password) eqn:Hp; [|done].
    destruct (validate_name name) eqn:Hn; [|done].
    intros _. by exists name, email, password.
  - intros (name & email & password & -> & -> & -> & Hn & He & Hp).
    rewrite (validate_name_nonempty _ Hn), (validate_email_nonempty _ He),
      (validate_password_nonempty _ Hp), He, Hp, Hn. done.
Qed.


Lemma filter_nil_Forall {A} (P : A → Prop) `{∀ x, Decision (P x)} (l : list A) :
  filter P l = [] ↔ Forall (λ x, ¬ P x) l.
Proof.
  split; [|apply AppRefactoredFacts.filter_none].
  intros Hnil. apply Forall_forall. intros x Hx HP.
  by eapply filter_nil_not_elem_of.
Qed.

Lemma fmap_nil_decide {A B} (f : A → B) (l : list A) :
  bool_decide (f <$> l = []) = bool_decide (l = []).
Proof. by destruct l. Qed.

Section Handlers.
Context `{Backend}.

Lemma create_user_invalid data db :
  (validate_user_payload_spec data [u "name"; u "email"; u "password"]).1
  = false →
  create_user (Body data) db
  = (create_error_response
       (validate_user_payload_spec data
          [u "name"; u "email"; u "password"]).2 400,
     db).
Proof.
  intros Hinv. unfold create_user.
  rewrite validated_required by (apply list_elem_of_further, list_elem_of_here).
  destruct (validate_user_payload_spec data _) as [is_valid message].
  simpl in Hinv. subst is_valid. done.
Qed.

(** [POST /users] with a payload that passes the validator. *)
Lemma create_user_valid data name email password db :
  valid_new_user data name email password →
  create_user (Body data) db
  = match Sqlite.bind_text email with
    | Raise _ => (create_error_response (u "Internal server error") 500, db)
    | Return _ =>
        if bool_decide (filter (λ r, Users.email r = email) db = []) then
          match UserService.create_user name email password db with
          | Return (user_id, db') =>
              (create_success_response
                 (JDict [(u "id", optional_int user_id);
                         (u "name", JStr name);
                         (u "email", JStr email)]) 201, db')
          | Raise _ =>
              (create_error_response (u "Internal server error") 500, db)
          end
        else
          (create_error_response
             (u "User with this email already exists") 409, db)
    end.
Proof.
  intros Hvalid.
  assert ((validate_user_payload_spec data
             [u "name"; u "email"; u "password"]).1 = true)
    as Hspec by (apply payload_new_user; eauto).
  destruct Hvalid as (Hn & He & Hp & _).
  unfold create_user.
  rewrite validated_required by (apply list_elem_of_further, list_elem_of_here).
  destruct (validate_user_payload_spec data _) as [is_valid message].
  simpl in Hspec. subst is_valid.
  unfold item. rewrite Hn, He, Hp. simpl.
  destruct (Sqlite.bind_text email) as [email'|e] eqn:Hbind; simpl; [|done].
  apply SqliteFacts.bind_text_Return in Hbind as [-> _].
  rewrite fmap_nil_decide.
  destruct (bool_decide (filter (λ r, Users.email r = email) db = []));
    simpl; [|done].
  by destruct (UserService.create_user name email password db) as [[? ?]|].
Qed.




Lemma get_user_by_id_missing user_id db :
  UserService.get_user_by_id user_id db = Return None →
  Forall (λ r, Users.id r ≠ user_id) db.
Proof.
  unfold UserService.get_user_by_id.
  destruct (Sqlite.bind_int user_id) as [i|e] eqn:Hid; simpl; [|done].
  apply SqliteFacts.bind_int_Return in Hid as [-> Hid].
  destruct (filter (λ r, Users.id r = user_id) db) eqn:Hfilter; [|done].
  intros _. by apply (filter_nil_Forall (λ r, Users.id r = user_id)).
Qed.


End Handlers.

Section Theorems.
Context `{Backend}.

(** X8: [POST /users] with a payload that passes the validator and whose
    email can be bound answers 409 without a change when a row carries
    the email.  When none does, it answers 201 and appends one row (the
    assigned id, the name, the email, the digest of the password) if the
    password and the name hold no lone surrogate, the name is within
    [SQLITE_MAX_LENGTH] and the table takes the row, and 500 without a
    change otherwise.  It answers 201 in no other case, and whenever it
    answers something else the table is unchanged. *)
Theorem create_user_handler_spec (req : request) (db : list Users.row) :
  (∀ data name email password,
     req = Body data → valid_new_user data name email password →
     Sqlite.binds email = true →
     (¬ Forall (λ r, Users.email r ≠ email) db →
      create_user req db
      = (create_error_response
           (u "User with this email already exists") 409, db))
     ∧ (Forall (λ r, Users.email r ≠ email) db →
        encodable password = true → Sqlite.binds name = true →
        stores (Users.mk (new_id db) name email
                  (sha256_hexdigest (flat_map utf8 password))) = true →
        create_user req db
        = (create_success_response
             (JDict [(u "id", JInt (new_id db)); (u "name", JStr name);
                     (u "email", JStr email)]) 201,
           db ++ [Users.mk (new_id db) name email
                    (sha256_hexdigest (flat_map utf8 password))]))
     ∧ (Forall (λ r, Users.email r ≠ email) db →
        encodable password = false ∨ Sqlite.binds name = false
        ∨ stores (Users.mk (new_id db) name email
                    (sha256_hexdigest (flat_map utf8 password))) = false →
        create_user req db
        = (create_error_response (u "Internal server error") 500, db)))
  ∧ (status (create_user req db).1 = 201 →
     ∃ data name email password,
       req = Body data ∧ valid_new_user data name email password
       ∧ Forall (λ r, Users.email r ≠ email) db
       ∧ encodable password = true
       ∧ Sqlite.binds name = true ∧ Sqlite.binds email = true
       ∧ stores (Users.mk (new_id db) name email
                   (sha256_hexdigest (flat_map utf8 password))) = true)
  ∧ (status (create_user req db).1 ≠ 201 → (create_user req db).2 = db).
Proof.
  split; [|split].
  - intros data name email password -> Hvalid He.
    rewrite (create_user_valid _ _ _ _ _ Hvalid).
    rewrite (SqliteFacts.bind_text_binds _ He).
    split; [|split].
    + intros Htaken. rewrite bool_decide_eq_false_2; [done|].
      intros Hnil.
      by apply (filter_nil_Forall (λ r, Users.email r = email)) in Hnil.
    + intros Hfresh Hp Hn Hrow.
      rewrite bool_decide_eq_true_2
        by (by apply (filter_nil_Forall (λ r, Users.email r = email))).
      by rewrite AppRefactoredFacts.create_user_fresh.
    + intros Hfresh Hbad.
      rewrite bool_decide_eq_true_2
        by (by apply (filter_nil_Forall (λ r, Users.email r = email))).
      destruct (UserService.create_user name email password db)
        as [[user_id db']|e] eqn:Hcreate; [|done].
      apply AppRefactoredFacts.create_user_Return in Hcreate
        as (Hp & Hn & _ & Hrow & _).
      destruct Hbad as [Hbad|[Hbad|Hbad]]; congruence.
  - destruct req as [| |data]; try (simpl; discriminate).
    destruct ((validate_user_payload_spec data
                 [u "name"; u "email"; u "password"]).1) eqn:Hspec.
    + apply payload_new_user in Hspec as (name & email & password & Hvalid).
      rewrite (create_user_valid _ _ _ _ _ Hvalid).
      destruct (Sqlite.bind_text email) as [email'|e]; [|simpl; discriminate].
      destruct (bool_decide_reflect
                  (filter (λ r, Users.email r = email) db = [])) as [Hnil|Hnil];
        [|simpl; discriminate].
      destruct (UserService.create_user name email password db)
        as [[user_id db']|e] eqn:Hcreate; [|simpl; discriminate].
      apply AppRefactoredFacts.create_user_Return in Hcreate
        as (Hp & Hn & He & Hrow & _).
      intros _. exists data, name, email, password.
      split; [done|]. split; [done|].
      split; [|done].
      by apply (filter_nil_Forall (λ r, Users.email r = email)).
    + rewrite (create_user_invalid _ _ Hspec). simpl. discriminate.
  - destruct req as [| |data]; try done.
    destruct ((validate_user_payload_spec data
                 [u "name"; u "email"; u "password"]).1) eqn:Hspec.
    + apply payload_new_user in Hspec as (name & email & password & Hvalid).
      rewrite (create_user_valid _ _ _ _ _ Hvalid).
      destruct (Sqlite.bind_text email) as [email'|e]; [|done].
      destruct (bool_decide
                  (filter (λ r, Users.email r = email) db = [])); [|done].
      by destruct (UserService.create_user name email password db)
        as [[user_id db']|e].
    + by rewrite (create_user_invalid _ _ Hspec).
Qed.



End Theorems.

Lemma create_user_handler_spec_witness :
  let data := {[u "name" := u "Bo"; u "email" := u "bo@x.com";
                u "password" := u "secret1"]} : gmap (list N) (list N) in
  let db := [Users.mk 1 (u "Al") (u "al@x.com") (u "sha256:hunter22")] in
  create_user (H := counting_backend) (Body data) db
  = (create_success_response
       (JDict [(u "id", JInt 2); (u "name", JStr (u "Bo"));
               (u "email", JStr (u "bo@x.com"))]) 201,
     db ++ [Users.mk 2 (u "Bo") (u "bo@x.com") (u "sha256:secret1")])
  ∧ create_user (H := counting_backend) (Body data)
      (db ++ [Users.mk 2 (u "Bo") (u "bo@x.com") (u "sha256:secret1")])
    = (create_error_response (u "User with this email already exists") 409,
       db ++ [Users.mk 2 (u "Bo") (u "bo@x.com") (u "sha256:secret1")]).
Proof.
  intros data db.
  destruct (create_user_handler_spec (H := counting_backend) (Body data) db)
    as (Hvalid & _ & _).
  destruct (create_user_handler_spec (H := counting_backend) (Body data)
              (db ++ [Users.mk 2 (u "Bo") (u "bo@x.com")
                        (u "sha256:secret1")]))
    as (Htaken & _ & _).
  destruct (Hvalid data (u "Bo") (u "bo@x.com") (u "secret1"))
    as (_ & H201 & _); [done|by repeat split|reflexivity|].
  destruct (Htaken data (u "Bo") (u "bo@x.com") (u "secret1"))
    as (H409 & _ & _); [done|by repeat split|reflexivity|].
  split.
  - apply H201; [|reflexivity..]. repeat constructor. discriminate.
  - apply H409.
    intros Hall. apply Forall_app in Hall as [_ Hall].
    apply Forall_cons in Hall as [Hne _]. by apply Hne.
Defined.


Section Login.
Context `{Backend}.

Lemma login_credentials creds email password db :
  creds !! u "email" = Some email → creds !! u "password" = Some password →
  validate_email email = true →
  login (Body creds) db
  = match UserService.authenticate_user email password db with
    | Return (Some user_id) =>
        if negb (user_id =? 0)
        then create_success_response
               (JDict [(u "user_id", JInt user_id);
                       (u "message", JStr (u "Login successful"))]) 200
        else create_error_response (u "Invalid email or password") 401
    | Return None => create_error_response (u "Invalid email or password") 401
    | Raise _ => create_error_response (u "Internal server error") 500
    end.
Proof.
  intros He Hp Hvalid. unfold login, item.
  rewrite bool_decide_eq_false_2.
  2: { intros ->. by rewrite lookup_empty in He. }
  rewrite He, Hp. simpl. rewrite Hvalid. simpl.
  destruct (UserService.authenticate_user email password db)
    as [[user_id|]|]; [|done..].
  simpl. by destruct (negb (user_id =? 0)).
Qed.

(** X11: After [POST /users] has created a user (it answered 201),
    [POST /login] with the email and the password answers 200 with the
    id of the new row, provided that id is not 0, which [if user_id:]
    takes for a failed login; with a password of another digest it
    answers 401, and with a password that has no digest, for the lone
    surrogate it holds, 500. *)
Theorem login_after_create (data creds : gmap (list N) (list N))
    (name email password password' : list N) (db : list Users.row) :
  valid_new_user data name email password →
  status (create_user (Body data) db).1 = 201 →
  creds !! u "email" = Some email → creds !! u "password" = Some password' →
  let db' := (create_user (Body data) db).2 in
  (encodable password' = true →
   sha256_hexdigest (flat_map utf8 password')
   = sha256_hexdigest (flat_map utf8 password) →
   new_id db ≠ 0 →
   login (Body creds) db'
   = create_success_response
       (JDict [(u "user_id", JInt (new_id db));
               (u "message", JStr (u "Login successful"))]) 200)
  ∧ (encodable password' = true →
     sha256_hexdigest (flat_map utf8 password')
     = sha256_hexdigest (flat_map utf8 password) →
     new_id db = 0 →
     login (Body creds) db'
     = create_error_response (u "Invalid email or password") 401)
  ∧ (encodable password' = true →
     sha256_hexdigest (flat_map utf8 password')
     ≠ sha256_hexdigest (flat_map utf8 password) →
     login (Body creds) db'
     = create_error_response (u "Invalid email or password") 401)
  ∧ (encodable password' = false →
     login (Body creds) db'
     = create_error_response (u "Internal server error") 500).
Proof.
  intros Hvalid Hcreated He Hp. cbv zeta.
  rewrite (create_user_valid _ _ _ _ _ Hvalid) in Hcreated |- *.
  destruct (Sqlite.bind_text email) as [email'|e] eqn:Hbind;
    [|simpl in Hcreated; discriminate].
  apply SqliteFacts.bind_text_Return in Hbind as [_ Hbinds].
  destruct (bool_decide_reflect
              (filter (λ r, Users.email r = email) db = [])) as [Hnil|Hnil];
    [|simpl in Hcreated; discriminate].
  apply (filter_nil_Forall (λ r, Users.email r = email)) in Hnil.
  destruct (UserService.create_user name email password db)
    as [[user_id db']|e] eqn:Hcreate; [|simpl in Hcreated; discriminate].
  apply AppRefactoredFacts.create_user_Return in Hcreate as (_ & _ & _ & _ & ->).
  cbn [snd].
  destruct Hvalid as (_ & _ & _ & _ & Hemail & _).
  rewrite (login_credentials _ _ _ _ He Hp Hemail).
  split; [|split; [|split]].
  - intros Hp' Hd Hid. rewrite UserFacts.authenticate_appended by done.
    rewrite decide_True by done.
    apply Z.eqb_neq in Hid. by rewrite Hid.
  - intros Hp' Hd Hid. rewrite UserFacts.authenticate_appended by done.
    rewrite decide_True by done. by rewrite Hid.
  - intros Hp' Hd. rewrite UserFacts.authenticate_appended by done.
    by rewrite decide_False.
  - intros Hp'. by rewrite UserFacts.authenticate_surrogate.
Qed.

End Login.

Lemma login_after_create_witness :
  let data := {[u "name" := u "Bo"; u "email" := u "bo@x.com";
                u "password" := u "secret1"]} : gmap (list N) (list N) in
  let db := [Users.mk 1 (u "Al") (u "al@x.com") (u "sha256:hunter22")] in
  let db' := (create_user (H := counting_backend) (Body data) db).2 in
  login (H := counting_backend)
    (Body {[u "email" := u "bo@x.com"; u "password" := u "secret1"]}) db'
  = create_success_response
      (JDict [(u "user_id", JInt 2);
              (u "message", JStr (u "Login successful"))]) 200
  ∧ login (H := counting_backend)
      (Body {[u "email" := u "bo@x.com"; u "password" := u "wrong-one"]}) db'
    = create_error_response (u "Invalid email or password") 401
  ∧ login (H := counting_backend)
      (Body {[u "email" := u "bo@x.com";
              u "password" := 55296%N :: u "aaaaa"]}) db'
    = create_error_response (u "Internal server error") 500.
Proof.
  intros data db db'. split; [|split].
  - apply (login_after_create (H := counting_backend) data
             {[u "email" := u "bo@x.com"; u "password" := u "secret1"]}
             (u "Bo") (u "bo@x.com") (u "secret1") (u "secret1") db);
      [by repeat split|reflexivity|done|done|reflexivity|done|done].
  - apply (login_after_create (H := counting_backend) data
             {[u "email" := u "bo@x.com"; u "password" := u "wrong-one"]}
             (u "Bo") (u "bo@x.com") (u "secret1") (u "wrong-one") db);
      [by repeat split|reflexivity|done|done|reflexivity|].
    discriminate.
  - apply (login_after_create (H := counting_backend) data
             {[u "email" := u "bo@x.com";
               u "password" := 55296%N :: u "aaaaa"]}
             (u "Bo") (u "bo@x.com") (u "secret1")
             (55296%N :: u "aaaaa") db);
      [by repeat split|reflexivity|done|done|reflexivity].
Defined.

(** *** What the handlers keep true of the table *)

Section Keys.
Context {A B : Type} (g : A → B).



End Keys.





Section Invariant.
Context `{Backend}.
Hypothesis new_id_fresh : ∀ db, new_id db ∉ Users.id <$> db.


End Invariant.




End UserApiFacts.

(** ** The handlers of the shortener *)

Module MainFacts.
Import Models Utils Flask Main.

Section Shorten.
Context {G : Type} `{RandomSource G}.

Lemma short_code_shape (g : G) :
  ∃ code g', generate_short_code_default g = Some (code, g')
             ∧ String.length code = 6%nat
             ∧ Forall (λ c, alnum c = true) (list_ascii_of_string code).
Proof.
  unfold generate_short_code_default, generate_short_code.
  destruct (UtilsFacts.join_choices_spec characters (Z.to_nat 6) g)
    as (code & g' & Hcode & Hlen & Hall).
  { rewrite UtilsFacts.characters_length. lia. }
  exists code, g'. split; [done|]. split; [done|].
  eapply Forall_impl; [exact Hall|].
  intros c Hc. by apply UtilsFacts.characters_alnum.
Qed.

(** The request that [shorten_url] goes on with: an object whose [url]
    is a string. *)
Lemma shorten_url_string now fields u g st :
  fields !! "url" = Some (JStr u) →
  shorten_url now (JsonBody (JObj fields)) g st
  = if is_valid_url (sanitize_url (Latin1.strip u)) then
      match generate_short_code_default g with
      | Some (code, g') =>
          (Json (JObj {["short_code" := JStr code;
                        "short_url" := JStr ("http://localhost:5000/" +:+ code)]})
                201,
           g',
           (add_mapping now code
              (sanitize_url (Latin1.strip u)) st).2)
      | None => (Json (error_body "Internal server error") 500, g, st)
      end
    else (Json (error_body "Invalid URL provided") 400, g, st).
Proof.
  intros Hurl. unfold shorten_url, truthy, contains, subscript.
  rewrite bool_decide_eq_false_2
    by (intros ->; by rewrite lookup_empty in Hurl).
  rewrite bool_decide_eq_true_2 by (by rewrite Hurl).
  rewrite Hurl.
  cbn -[is_valid_url sanitize_url generate_short_code_default
        Latin1.strip add_mapping].
  destruct (is_valid_url (sanitize_url (Latin1.strip u)));
    [|done].
  cbn -[generate_short_code_default add_mapping].
  by destruct (generate_short_code_default g) as [[code g']|].
Qed.

(** Every other request is answered 400 or 500, and nothing changes. *)
Lemma shorten_url_rejected now req g st :
  (∀ fields u, req = JsonBody (JObj fields) → fields !! "url" ≠ Some (JStr u)) →
  ∃ message status,
    shorten_url now req g st = (Json (error_body message) status, g, st)
    ∧ (status = 400 ∨ status = 500).
Proof.
  intros Hother. destruct req as [| |data]; simpl; [eauto..|].
  destruct data as [|b|z|f|s|items|fields]; simpl.
  - eauto.
  - destruct b; simpl; eauto.
  - destruct (z =? 0); simpl; eauto.
  - destruct (PrimFloat.eqb f 0); simpl; eauto.
  - destruct (String.eqb s ""); simpl; [eauto|].
    destruct (bool_decide (is_Some (String.index 0 "url" s))); simpl; eauto.
  - destruct (bool_decide (items = [])); simpl; [eauto|].
    destruct (existsb _ items); simpl; eauto.
  - destruct (bool_decide (fields = ∅)); simpl; [eauto|].
    destruct (fields !! "url") as [v|] eqn:Hurl.
    + rewrite bool_decide_eq_true_2 by done. simpl.
      destruct v; simpl; eauto.
      exfalso. by eapply Hother.
    + rewrite bool_decide_eq_false_2 by (by intros [? ?]). simpl. eauto.
Qed.

Lemma shorten_url_cases (req : request) :
  (∃ fields u, req = JsonBody (JObj fields) ∧ fields !! "url" = Some (JStr u))
  ∨ (∀ fields u, req = JsonBody (JObj fields) → fields !! "url" ≠ Some (JStr u)).
Proof.
  destruct req as [| |data]; [by right..|].
  destruct data as [| | | | | |fields]; try by right.
  destruct (fields !! "url") as [[| | | |u| |]|] eqn:Hurl;
    try (right; intros fields' u' [= <-]; by rewrite Hurl).
  left. eauto.
Qed.

(** X13: [POST /api/shorten] answers 201 exactly when the body is an object
    whose [url] is a string that, stripped and given a scheme by
    [sanitize_url], [is_valid_url] accepts.  It then binds a new code of
    six characters to that URL and returns the code; a URL that is not
    accepted is answered 400.  Whenever the answer is not 201 the
    generator and the store are unchanged. *)
Theorem shorten_url_spec (now : float) (req : request) (g : G)
    (st : URLStore) :
  (∀ fields u,
     req = JsonBody (JObj fields) → fields !! "url" = Some (JStr u) →
     (is_valid_url (sanitize_url (Latin1.strip u)) = true →
      ∃ code g',
        generate_short_code_default g = Some (code, g')
        ∧ String.length code = 6%nat
        ∧ shorten_url now req g st
          = (Json (JObj {["short_code" := JStr code;
                          "short_url" :=
                            JStr ("http://localhost:5000/" +:+ code)]}) 201,
             g',
             (add_mapping now code
                (sanitize_url (Latin1.strip u)) st).2))
     ∧ (is_valid_url (sanitize_url (Latin1.strip u)) = false →
        shorten_url now req g st
        = (Json (error_body "Invalid URL provided") 400, g, st)))
  ∧ (status_code (shorten_url now req g st).1.1 = 201 →
     ∃ fields u,
       req = JsonBody (JObj fields) ∧ fields !! "url" = Some (JStr u)
       ∧ is_valid_url (sanitize_url (Latin1.strip u)) = true)
  ∧ (status_code (shorten_url now req g st).1.1 ≠ 201 →
     (shorten_url now req g st).1.2 = g ∧ (shorten_url now req g st).2 = st).
Proof.
  split; [|split].
  - intros fields u -> Hurl. rewrite (shorten_url_string _ _ _ _ _ Hurl).
    split; intros Hvalid; rewrite Hvalid; [|done].
    destruct (short_code_shape g) as (code & g' & Hcode & Hlen & _).
    exists code, g'. by rewrite Hcode.
  - destruct (shorten_url_cases req) as [(fields & u & -> & Hurl)|Hother].
    + rewrite (shorten_url_string _ _ _ _ _ Hurl).
      destruct (is_valid_url (sanitize_url (Latin1.strip u)))
        eqn:Hvalid; [|simpl; discriminate].
      intros _. by exists fields, u.
    + destruct (shorten_url_rejected now req g st Hother)
        as (message & status & -> & [-> | ->]); simpl; discriminate.
  - destruct (shorten_url_cases req) as [(fields & u & -> & Hurl)|Hother].
    + rewrite (shorten_url_string _ _ _ _ _ Hurl).
      destruct (is_valid_url (sanitize_url (Latin1.strip u)));
        [|done].
      destruct (short_code_shape g) as (code & g' & -> & _). done.
    + by destruct (shorten_url_rejected now req g st Hother)
        as (message & status & -> & _).
Qed.

End Shorten.

Lemma shorten_url_spec_witness :
  shorten_url (G := Z) 0%float
    (JsonBody (JObj {["url" := JStr "not-a-url"]})) 2024 init
  = (Json (error_body "Invalid URL provided") 400, 2024, init)
  ∧ ∃ code g',
      generate_short_code_default (G := Z) 2024 = Some (code, g')
      ∧ String.length code = 6%nat
      ∧ shorten_url (G := Z) 0%float
          (JsonBody (JObj {["url" := JStr "www.example.com/no-scheme"]}))
          2024 init
        = (Json (JObj {["short_code" := JStr code;
                        "short_url" :=
                          JStr ("http://localhost:5000/" +:+ code)]}) 201,
           g',
           (add_mapping 0%float code
              "https://www.example.com/no-scheme" init).2).
Proof.
  destruct (shorten_url_spec (G := Z) 0%float
              (JsonBody (JObj {["url" := JStr "not-a-url"]})) 2024 init)
    as (Hbad & _).
  destruct (shorten_url_spec (G := Z) 0%float
              (JsonBody (JObj {["url" := JStr "www.example.com/no-scheme"]}))
              2024 init) as (Hgood & _).
  destruct (Hbad {["url" := JStr "not-a-url"]} "not-a-url")
    as [_ H400]; [done|done|].
  destruct (Hgood {["url" := JStr "www.example.com/no-scheme"]}
              "www.example.com/no-scheme") as [H201 _]; [done|done|].
  split.
  - apply H400. vm_compute. reflexivity.
  - apply H201. vm_compute. reflexivity.
Defined.

(** *** Following a short code *)

Lemma follow_S code n st :
  follow code (S n) st = (redirect_to_url code (follow code n st)).2.
Proof. reflexivity. Qed.

Lemma redirect_bound code st r m :
  mappings st !! code = Some r → objects st !! r = Some m →
  redirect_to_url code st
  = (Returns (Redirect (original_url m) 302),
     {| objects := alter click r (objects st); mappings := mappings st |}).
Proof.
  intros Hr Hm. unfold redirect_to_url, get_mapping, increment_clicks, deref.
  rewrite Hr. simpl. by rewrite list_lookup_alter_eq, Hm.
Qed.

Lemma follow_bound code n st r m :
  mappings st !! code = Some r → objects st !! r = Some m →
  mappings (follow code n st) !! code = Some r
  ∧ objects (follow code n st) !! r
    = Some (mkURLMapping (original_url m) (short_code m) (created_at m)
              (clicks m + Z.of_nat n)).
Proof.
  intros Hr Hm. induction n as [|n [IHr IHm]].
  - simpl. split; [done|]. rewrite Hm. f_equal. destruct m; simpl.
    f_equal. lia.
  - rewrite follow_S, (redirect_bound _ _ _ _ IHr IHm). simpl.
    split; [done|]. rewrite list_lookup_alter_eq, IHm. simpl.
    unfold click. simpl. do 2 f_equal. lia.
Qed.

Section RoundTrip.
Context {G : Type} `{RandomSource G}.

(** X14: After [POST /api/shorten] has answered 201 with a code, the
    body was an object whose [url] is a string, and every [GET /<code>]
    redirects with 302 to that string, stripped and given a scheme by
    [sanitize_url]; after [n] of them [GET /api/stats/<code>] reports
    that URL, [n] clicks and the time of the [POST]. *)
Theorem shorten_follow_stats (format_timestamp : float → string)
    (now : float) (req : request) (g g' : G) (st st' : URLStore)
    (resp : response) :
  shorten_url now req g st = (resp, g', st') →
  status_code resp = 201 →
  ∃ fields u code,
    req = JsonBody (JObj fields) ∧ fields !! "url" = Some (JStr u)
    ∧ resp = Json (JObj {["short_code" := JStr code;
                          "short_url" :=
                            JStr ("http://localhost:5000/" +:+ code)]}) 201
    ∧ is_valid_url (sanitize_url (Latin1.strip u)) = true
    ∧ ∀ n,
        (redirect_to_url code (follow code n st')).1
        = Returns (Redirect (sanitize_url (Latin1.strip u)) 302)
        ∧ get_stats format_timestamp code (follow code n st')
          = Returns (Json (JObj {["url" :=
                                    JStr (sanitize_url (Latin1.strip u));
                                  "clicks" := JInt (Z.of_nat n);
                                  "created_at" := JStr (format_timestamp now)]})
                          200).
Proof.
  intros Hshorten Hstatus.
  destruct (shorten_url_cases req) as [(fields & u & -> & Hurl)|Hother].
  - rewrite (shorten_url_string _ _ _ _ _ Hurl) in Hshorten.
    destruct (is_valid_url (sanitize_url (Latin1.strip u)))
      eqn:Hvalid.
    + destruct (short_code_shape g) as (code & g1 & Hcode & _).
      rewrite Hcode in Hshorten. injection Hshorten as <- <- <-.
      exists fields, u, code.
      split; [done|]. split; [done|]. split; [done|]. split; [done|].
      intros n.
      match goal with
      | |- context [follow code n ?s] =>
          destruct (follow_bound code n s (length (objects st))
                      (mkURLMapping
                         (sanitize_url (Latin1.strip u))
                         code now 0)) as [Hr Hm]
      end.
      { simpl. apply lookup_insert_eq. }
      { simpl. by apply list_lookup_middle. }
      split.
      * by rewrite (redirect_bound _ _ _ _ Hr Hm).
      * unfold get_stats, get_mapping, deref. rewrite Hr. simpl.
        by rewrite Hm.
    + injection Hshorten as <- _ _. simpl in Hstatus. discriminate.
  - destruct (shorten_url_rejected now req g st Hother)
      as (message & status & Heq & Hst).
    rewrite Heq in Hshorten. injection Hshorten as <- _ _.
    simpl in Hstatus. destruct Hst; subst; discriminate.
Qed.

End RoundTrip.

Lemma shorten_follow_stats_witness :
  let req := JsonBody (JObj {["url" := JStr "  www.example.com/a "]}) in
  let r := shorten_url (G := Z) 0%float req 2024 init in
  ∃ fields u code,
    req = JsonBody (JObj fields) ∧ fields !! "url" = Some (JStr u)
    ∧ r.1.1 = Json (JObj {["short_code" := JStr code;
                           "short_url" :=
                             JStr ("http://localhost:5000/" +:+ code)]}) 201
    ∧ is_valid_url (sanitize_url (Latin1.strip u)) = true
    ∧ ∀ n,
        (redirect_to_url code (follow code n r.2)).1
        = Returns (Redirect (sanitize_url (Latin1.strip u)) 302)
        ∧ get_stats (λ _, "1970-01-01T00:00:00") code (follow code n r.2)
          = Returns (Json (JObj {["url" :=
                                    JStr (sanitize_url (Latin1.strip u));
                                  "clicks" := JInt (Z.of_nat n);
                                  "created_at" := JStr "1970-01-01T00:00:00"]})
                          200).
Proof.
  intros req r.
  apply (shorten_follow_stats (G := Z) (λ _, "1970-01-01T00:00:00")
           0%float req 2024 r.1.2 init r.2 r.1.1).
  - subst r. by destruct (shorten_url _ _ _ _) as [[? ?] ?].
  - vm_compute. reflexivity.
Defined.

(** *** The contract of [GET /<short_code>] and [GET /api/stats/<short_code>] *)

(** X15: On a store whose keys are bound to live records: for a code that is
    not bound both handlers answer 404 and the store is unchanged; for a
    bound code [redirect_to_url] answers 302 with the stored URL and
    adds one to the counter of that code, leaving the bindings and the
    records of the other codes as they are, and [get_stats] reports the
    stored URL, counter and time. *)
Theorem redirect_and_stats_spec (format_timestamp : float → string)
    (code : string) (st : URLStore) :
  wf st →
  (get_mapping code st = None →
   redirect_to_url code st
   = (Returns (Json (error_body "Short code not found") 404), st)
   ∧ get_stats format_timestamp code st
     = Returns (Json (error_body "Short code not found") 404))
  ∧ (∀ m, stored st code = Some m →
     (redirect_to_url code st).1 = Returns (Redirect (original_url m) 302)
     ∧ stored (redirect_to_url code st).2 code = Some (click m)
     ∧ mappings (redirect_to_url code st).2 = mappings st
     ∧ (∀ code', code' ≠ code →
          stored (redirect_to_url code st).2 code' = stored st code')
     ∧ get_stats format_timestamp code st
       = Returns (Json (JObj {["url" := JStr (original_url m);
                               "clicks" := JInt (clicks m);
                               "created_at" :=
                                 JStr (format_timestamp (created_at m))]})
                       200)).
Proof.
  intros Hwf. split.
  - intros Hnone. unfold redirect_to_url, get_stats. by rewrite Hnone.
  - intros m Hm. unfold stored, shows, deref in Hm.
    destruct (mappings st !! code) as [r|] eqn:Hr; [|done]. simpl in Hm.
    rewrite (redirect_bound _ _ _ _ Hr Hm). simpl.
    split; [done|]. split; [|split; [done|split]].
    + unfold stored, shows, deref. simpl. rewrite Hr. simpl.
      by rewrite list_lookup_alter_eq, Hm.
    + intros code' Hne. unfold stored, shows, deref. simpl.
      destruct (mappings st !! code') as [r'|] eqn:Hr'; simpl; [|done].
      apply list_lookup_alter_ne. intros ->.
      destruct (Hwf _ _ Hr) as (m1 & Hm1 & Hc1 & _).
      destruct (Hwf _ _ Hr') as (m2 & Hm2 & Hc2 & _).
      congruence.
    + unfold get_stats, get_mapping, deref. rewrite Hr. simpl. by rewrite Hm.
Qed.

Lemma redirect_and_stats_spec_witness :
  let st := run [AddMapping 0%float "abc123" "https://x.com";
                 AddMapping 1%float "xyz789" "https://y.com"] init in
  (redirect_to_url "abc123" st).1 = Returns (Redirect "https://x.com" 302)
  ∧ stored (redirect_to_url "abc123" st).2 "xyz789"
    = Some (mkURLMapping "https://y.com" "xyz789" 1%float 0)
  ∧ redirect_to_url "nosuch" st
    = (Returns (Json (error_body "Short code not found") 404), st).
Proof.
  intros st.
  destruct (redirect_and_stats_spec (λ _, "") "abc123" st) as [_ Hbound].
  { apply ModelsFacts.wf_run, ModelsFacts.wf_init. }
  destruct (redirect_and_stats_spec (λ _, "") "nosuch" st) as [Hnone _].
  { apply ModelsFacts.wf_run, ModelsFacts.wf_init. }
  destruct (Hbound (mkURLMapping "https://x.com" "abc123" 0%float 0))
    as (Hresp & _ & _ & Hother & _); [reflexivity|].
  split; [exact Hresp|]. split.
  - rewrite Hother; [reflexivity|discriminate].
  - apply Hnone. reflexivity.
Defined.

(** *** What the handlers keep true of the store *)

Lemma valid_store_init : valid_store init.
Proof. intros code r Hr. simpl in Hr. by rewrite lookup_empty in Hr. Qed.

Lemma valid_store_wf st : valid_store st → wf st.
Proof.
  intros Hst code r Hr. destruct (Hst _ _ Hr) as (m & Hm & Hc & Hv).
  exists m. split; [done|]. split; [done|]. apply Hv.
Qed.

Lemma valid_store_add now code url st :
  valid_store st → valid_record (mkURLMapping url code now 0) →
  valid_store (add_mapping now code url st).2.
Proof.
  intros Hst Hnew code' r; simpl.
  destruct (decide (code = code')) as [<-|Hne].
  - rewrite lookup_insert_eq. intros [= <-].
    eexists. split; [by apply list_lookup_middle|]. done.
  - rewrite lookup_insert_ne by done. intros Hr.
    destruct (Hst _ _ Hr) as (m & Hm & Hc & Hv).
    exists m. split; [by apply lookup_app_l_Some|done].
Qed.

Lemma valid_store_increment code st :
  valid_store st → valid_store (increment_clicks code st).2.
Proof.
  intros Hst code' r. unfold increment_clicks.
  destruct (mappings st !! code) as [r0|] eqn:E; simpl; [|apply Hst].
  intros Hr. destruct (Hst _ _ Hr) as (m & Hm & Hc & Hv).
  destruct (decide (r0 = r)) as [->|Hne].
  - exists (click m). rewrite list_lookup_alter_eq, Hm. simpl.
    split; [done|]. split; [done|].
    destruct Hv as (? & ? & ? & ? & ?). repeat split; try done. simpl. lia.
  - exists m. by rewrite list_lookup_alter_ne.
Qed.

Section Invariant.
Context {G : Type} `{RandomSource G}.

Lemma valid_store_serve (s : G * URLStore) (c : call) :
  valid_store s.2 → valid_store (serve s c).2.
Proof.
  intros Hst. destruct s as [g st]. destruct c as [now req|code|code]; simpl.
  - destruct (shorten_url_cases req) as [(fields & u & -> & Hurl)|Hother].
    + rewrite (shorten_url_string _ _ _ _ _ Hurl).
      destruct (is_valid_url (sanitize_url (Latin1.strip u)))
        eqn:Hvalid; [|done].
      destruct (short_code_shape g) as (code & g' & -> & Hlen & Hall).
      apply valid_store_add; [done|].
      split; [done|]. split; [apply UrlFacts.sanitize_url_scheme|].
      split; [done|]. split; [done|]. simpl. lia.
    + by destruct (shorten_url_rejected now req g st Hother)
        as (message & status & -> & _).
  - unfold redirect_to_url.
    destruct (get_mapping code st); [|done].
    by apply valid_store_increment.
  - done.
Qed.

(** X16: Whatever requests the shortener serves one after the other,
    starting from the empty store: every key of the store is bound to a
    live record, which carries the code it is stored under, a code of
    six characters of [[A-Za-z0-9]], a URL that [is_valid_url] accepts
    and that begins with [http://] or [https://], and a counter that is
    not negative. *)
Theorem handlers_keep_valid (cs : list call) (g : G) :
  valid_store (serve_all cs (g, init)).2.
Proof.
  assert (∀ s : G * URLStore, valid_store s.2 →
            valid_store (foldl serve s cs).2) as Hall.
  { induction cs as [|c cs IH]; intros s Hs; [done|].
    simpl. apply IH. by apply valid_store_serve. }
  unfold serve_all. apply (Hall (g, init) valid_store_init).
Qed.

End Invariant.

End MainFacts.

(** ** Searching users *)

Module LikeFacts.
Import Py Unicode Sqlite AppRefactored Like.
















End LikeFacts.
